(** * COVID19-DashApp: the data pipeline of [main.py]

    A shallow embedding of the pandas pipeline of [main.py]
    (load, melt, group, merge, cache, filter, difference, smooth) and the
    properties of it that the design document states.

    Conventions of the embedding.
    - An [Int64] column cell is [option Z] ([None] is [<NA>]); arithmetic
      on cells wraps around at 64 bits, as numpy's does.
    - A [datetime64] cell is a day number in [Z].
    - A [float64] coordinate is a value of an abstract type [Coord]; the
      reducers pandas applies to coordinates ([median], [sum]) are
      parameters.  No property below depends on their values.
    - A rolling mean is an exact rational ([Q]): rounding of the
      [float64] result is not modelled.
    - A [DataFrame] whose index is observed later is a list of
      (label, row) pairs; where the index is discarded by the next
      operation ([merge], [reset_index]) a plain list of rows is used. *)

From Stdlib Require Import ZArith QArith.
From stdpp Require Import base decidable option list sorting strings.

Local Open Scope string_scope.
Local Open Scope Z_scope.
Local Open Scope list_scope.

(** ** Nullable 64-bit integers (pandas [Int64]) *)

Module Int64.

Definition wrap (z : Z) : Z := (z + 2 ^ 63) mod 2 ^ 64 - 2 ^ 63.

Definition add (a b : Z) : Z := wrap (a + b).
Definition sub (a b : Z) : Z := wrap (a - b).

(** [Series.sum()]: missing cells are skipped, the empty sum is 0. *)
Definition sum (l : list (option Z)) : Z :=
  foldl (λ acc x, match x with Some v => add acc v | None => acc end) 0 l.

(** [a - b] on cells: missing if either side is missing. *)
Definition sub_na (a b : option Z) : option Z :=
  match a, b with
  | Some x, Some y => Some (sub x y)
  | _, _ => None
  end.

(** [Series.diff()]: row [i] is [x[i] - x[i-1]], row 0 is missing. *)
Definition diff (l : list (option Z)) : list (option Z) :=
  match l with
  | [] => []
  | _ :: tl => None :: zip_with sub_na tl l
  end.

(** [Series.fillna(v)]. *)
Definition fillna (v : Z) (l : list (option Z)) : list (option Z) :=
  (λ x, match x with Some _ => x | None => Some v end) <$> l.

(** The sum over the integers of the cells that are present. *)
Definition total (l : list (option Z)) : Z :=
  foldr (λ x acc, default 0 x + acc) 0 l.

End Int64.

(** ** Generic table operations *)

Definition Date := Z.

(** A frame whose index labels matter: (label, row) pairs in row order. *)
Definition Frame (A : Type) := list (nat * A).

(** [reset_index()] / a fresh [RangeIndex]. *)
Definition reset_index {A} (l : list A) : Frame A := imap (λ i r, (i, r)) l.

(** [Series.unique()]: distinct values in order of first appearance. *)
Fixpoint unique {K} `{EqDecision K} (l : list K) : list K :=
  match l with
  | [] => []
  | x :: tl => x :: filter (λ y, y ≠ x) (unique tl)
  end.

(** [groupby(key)]: one group per distinct key, groups in ascending key
    order (pandas' default [sort=True]), rows of a group in table order. *)
Definition groupby {A K} `{EqDecision K} (le : relation K)
    `{∀ x y, Decision (le x y)} (key : A → K) (l : list A) : list (K * list A) :=
  (λ k, (k, filter (λ r, key r = k) l)) <$> merge_sort le (unique (key <$> l)).

(** [df.join(other)]: left join on the index labels. *)
Definition join {A B} (l : Frame A) (r : Frame B) : Frame (A * B) :=
  x ← l; y ← filter (λ y, y.1 = x.1) r; [(x.1, (x.2, y.2))].

(** [Series.rolling(length).mean()]: the mean of the last [length] cells,
    missing while fewer than [length] cells are available or when a cell
    of the window is missing ([min_periods] defaults to the window). *)
Definition window_mean (length : nat) (w : list (option Z)) : option Q :=
  if decide (List.length w = length ∧ Forall is_Some w ∧ length ≠ 0%nat)
  then Some (Qmake (Int64.total w) (Pos.of_nat length))
  else None.

Definition rolling_mean (length : nat) (xs : list (option Z)) : list (option Q) :=
  imap (λ i _, window_mean length (drop (S i - length) (take (S i) xs))) xs.

(** Lexicographic order of strings by code point ([str.__lt__]). *)
Definition string_le (s1 s2 : string) : Prop := String.leb s1 s2 = true.

Global Instance string_le_dec s1 s2 : Decision (string_le s1 s2).
Proof. unfold string_le. apply _. Defined.

Definition sentinel : string := "<all>".

(** ** The tables of the pipeline *)

Section Pipeline.

(** Coordinates ([float64]) and the reducers applied to them. *)
Context {Coord : Type} `{EqDecision Coord}.
Variable median : list Coord → Coord.
Variable fsum : list Coord → Coord.
(** [Series.dt.strftime('%b %d, %Y')]. *)
Variable strftime : Date → string.

(** One row of a wide source table: the identifying columns and the
    cells of the date columns.  A row shorter than the header reads as
    missing cells, as [read_csv] pads it. *)
Record WideRow := {
  wCountry : string;
  wProvince : option string;
  wLat : Coord;
  wLong : Coord;
  wCells : list (option Z)
}.

(** The two source layouts.  For the US layout, what is left after
    [iloc[:, 6:]]: whether the [Combined_Key] and [Population] columns
    are there. *)
Inductive Schema :=
| GlobalSchema
| UsSchema (combined_key population : bool).

Record Csv := {
  csv_schema : Schema;
  csv_dates : list Date;
  csv_rows : list WideRow
}.

(** A row of a long table carrying one metric. *)
Record MetricRow := {
  mCountry : string;
  mProvince : option string;
  mLat : Coord;
  mLong : Coord;
  mdate : Date;
  mvalue : option Z
}.

(** A row of the unified table. *)
Record UnifiedRecord := {
  Country : string;
  Province_State : option string;
  Lat : Coord;
  Long : Coord;
  date : Date;
  CumConfirmed : option Z;
  CumDeaths : option Z
}.

Global Instance MetricRow_eq_dec : EqDecision MetricRow.
Proof. solve_decision. Defined.
Global Instance UnifiedRecord_eq_dec : EqDecision UnifiedRecord.
Proof. solve_decision. Defined.

(** *** [melt] *)

Definition melt_cell (j : nat) (d : Date) (r : WideRow) : MetricRow :=
  {| mCountry := wCountry r; mProvince := wProvince r;
     mLat := wLat r; mLong := wLong r;
     mdate := d; mvalue := default None (wCells r !! j) |}.

(** [melt(id_vars=[Country, Province/State, Lat, Long])]: the value
    columns one after the other, each over all rows. *)
Fixpoint melt_from (j : nat) (dates : list Date) (rows : list WideRow)
    : list MetricRow :=
  match dates with
  | [] => []
  | d :: ds => (melt_cell j d <$> rows) ++ melt_from (S j) ds rows
  end.

Definition melt (dates : list Date) (rows : list WideRow) : list MetricRow :=
  melt_from 0 dates rows.

(** *** [load_data_global] and [load_data_us], after [read_csv] *)

(** Order of the group keys [(Country, date)]. *)
Definition key2_le (a b : string * Date) : Prop :=
  if decide (a.1 = b.1) then (a.2 ≤ b.2)%Z else string_le a.1 b.1.

Global Instance key2_le_dec a b : Decision (key2_le a b).
Proof. unfold key2_le. destruct (decide (a.1 = b.1)); apply _. Defined.

(** Order of the group keys [(Country, Province/State, date)]. *)
Definition key3_le (a b : string * string * Date) : Prop :=
  if decide (a.1.1 = b.1.1) then key2_le (a.1.2, a.2) (b.1.2, b.2)
  else string_le a.1.1 b.1.1.

Global Instance key3_le_dec a b : Decision (key3_le a b).
Proof. unfold key3_le. destruct (decide (a.1.1 = b.1.1)); apply _. Defined.

(** [.agg({column: sum, 'Lat': median, 'Long': median})] of one group;
    pandas takes the builtin [sum] for its own column sum, which skips
    missing cells. *)
Definition agg_row (country : string) (province : string) (d : Date)
    (g : list MetricRow) : MetricRow :=
  {| mCountry := country; mProvince := Some province;
     mLat := median (mLat <$> g); mLong := median (mLong <$> g);
     mdate := d; mvalue := Some (Int64.sum (mvalue <$> g)) |}.

Definition aggregate_global (data : list MetricRow) : list MetricRow :=
  (λ kg : string * Date * list MetricRow, agg_row kg.1.1 sentinel kg.1.2 kg.2)
    <$> groupby key2_le (λ r, (mCountry r, mdate r)) data.

Definition global_frame (dates : list Date) (rows : list WideRow)
    : list MetricRow :=
  let data := melt dates rows in
  let data_china := filter (λ r, mCountry r = "China") data in
  aggregate_global data ++ data_china.

(** Rows whose [Province/State] is missing are left out of the groups
    ([dropna] of [groupby]). *)
Definition with_province (data : list MetricRow) : list (string * MetricRow) :=
  omap (λ r, (λ p, (p, r)) <$> mProvince r) data.

Definition aggregate_us (data : list MetricRow) : list MetricRow :=
  (λ kg : string * string * Date * list (string * MetricRow),
     agg_row kg.1.1.1 kg.1.1.2 kg.1.2 (snd <$> kg.2))
    <$> groupby key3_le (λ pr : string * MetricRow,
                           (mCountry pr.2, pr.1, mdate pr.2))
                (with_province data).

Definition us_frame (dates : list Date) (rows : list WideRow)
    : list MetricRow :=
  aggregate_us (melt dates rows).

(** *** [DataFrame.merge] *)

(** [merge] is called without [on=]: the join columns are all the
    columns the two frames share, here every column but the metric. *)
Definition merge_key (r : MetricRow)
    : string * option string * Coord * Coord * Date :=
  (mCountry r, mProvince r, mLat r, mLong r, mdate r).

Definition merge_row (a b : MetricRow) : UnifiedRecord :=
  {| Country := mCountry a; Province_State := mProvince a;
     Lat := mLat a; Long := mLong a; date := mdate a;
     CumConfirmed := mvalue a; CumDeaths := mvalue b |}.

(** [how='inner']: every pair of a left and a right row with equal
    keys, in the order of the left rows.  That is the order pandas gives
    while no key repeats in the left frame; where one does, pandas puts
    the pairs of that key together.  Which rows there are, and how many,
    is the same. *)
Definition merge (A B : list MetricRow) : list UnifiedRecord :=
  a ← A; merge_row a <$> filter (λ b, merge_key b = merge_key a) B.

(** How many rows of [l] carry the key [k]. *)
Definition matches (k : string * option string * Coord * Coord * Date)
    (l : list MetricRow) : nat :=
  length (filter (λ r : MetricRow, merge_key r = k) l).

(** *** The outside world: remote files, the pickle file *)

Inductive Error :=
| FetchError | KeyError | TypeError | IndexError | FileNotFoundError
| OSError.

Inductive Event :=
| EvFetch (url : string)
| EvWritePickle
| EvReadPickle.

Record World := {
  remote : string → option Csv;
  pickle : option (Frame UnifiedRecord);
  trace : list Event
}.

(** Computations that read and change the world and may raise. *)
Record M (A : Type) : Type := Action { run : World → (Error + A) * World }.
Global Arguments Action {A} _.
Global Arguments run {A} _ _.

Global Instance M_ret : MRet M := λ A a, Action (λ w, (inr a, w)).
Global Instance M_bind : MBind M := λ A B f m, Action (λ w,
  match run m w with
  | (inr a, w') => run (f a) w'
  | (inl e, w') => (inl e, w')
  end).

Definition raise {A} (e : Error) : M A := Action (λ w, (inl e, w)).

(** The world after one more observable step. *)
Definition log (w : World) (ev : Event) : World :=
  {| remote := remote w; pickle := pickle w; trace := trace w ++ [ev] |}.

Definition emit (ev : Event) : M unit := Action (λ w, (inr (), log w ev)).

(** The resources a trace fetched, in order. *)
Definition fetches (tr : list Event) : list string :=
  omap (λ ev, match ev with EvFetch url => Some url | _ => None end) tr.

Definition baseURL : string :=
  "https://raw.githubusercontent.com/CSSEGISandData/COVID-19/master/csse_covid_19_data/csse_covid_19_time_series/".

(** [pd.read_csv(url)]: raises when the resource cannot be fetched or
    parsed. *)
Definition read_csv (url : string) : M Csv :=
  emit (EvFetch url);;
  Action (λ w, match remote w url with
               | Some csv => (inr csv, w)
               | None => (inl FetchError, w)
               end).

(** [DataFrame.to_pickle(fileNamePickle)]. *)
Definition to_pickle (data : Frame UnifiedRecord) : M unit :=
  emit EvWritePickle;;
  Action (λ w, (inr (), {| remote := remote w; pickle := Some data;
                           trace := trace w |})).

(** [pd.read_pickle(fileNamePickle)]. *)
Definition read_pickle : M (Frame UnifiedRecord) :=
  emit EvReadPickle;;
  Action (λ w, match pickle w with
               | Some data => (inr data, w)
               | None => (inl FileNotFoundError, w)
               end).

(** [isfile(fileNamePickle)]. *)
Definition isfile : M bool :=
  Action (λ w, (inr (bool_decide (is_Some (pickle w))), w)).

(** *** The functions of [main.py] *)

(** [column_name] names the metric column, here the field [mvalue].
    [melt] raises [KeyError] when the identifying columns are not there,
    which is the case of a table in the US layout. *)
Definition load_data_global (file_name column_name : string)
    : M (list MetricRow) :=
  csv ← read_csv (baseURL +:+ file_name);
  match csv_schema csv with
  | GlobalSchema => mret (global_frame (csv_dates csv) (csv_rows csv))
  | UsSchema _ _ => raise KeyError
  end.

(** [Population] is dropped when it is there; [drop('Combined_Key')]
    raises [KeyError] when that column is not. *)
Definition load_data_us (file_name column_name : string)
    : M (list MetricRow) :=
  csv ← read_csv (baseURL +:+ file_name);
  match csv_schema csv with
  | UsSchema true _ => mret (us_frame (csv_dates csv) (csv_rows csv))
  | UsSchema false _ => raise KeyError
  | GlobalSchema => raise KeyError
  end.

Definition simple_moving_average (df : list (option Z)) (length : nat)
    : list (option Q) :=
  rolling_mean length df.

Definition refresh_data : M (Frame UnifiedRecord) :=
  confirmed_global ←
    load_data_global "time_series_covid19_confirmed_global.csv" "CumConfirmed";
  deaths_global ←
    load_data_global "time_series_covid19_deaths_global.csv" "CumDeaths";
  let data_global := reset_index (merge confirmed_global deaths_global) in
  confirmed_us ←
    load_data_us "time_series_covid19_confirmed_US.csv" "CumConfirmed";
  deaths_us ←
    load_data_us "time_series_covid19_deaths_US.csv" "CumDeaths";
  let data_us := reset_index (merge confirmed_us deaths_us) in
  let data := data_global ++ data_us in
  to_pickle data;;
  mret data.

(** *** The write of the snapshot, step by step *)

(** [refresh_data] up to the call of [to_pickle]: the four loads, the
    two merges and the concatenation. *)
Definition build_table : M (Frame UnifiedRecord) :=
  confirmed_global ←
    load_data_global "time_series_covid19_confirmed_global.csv" "CumConfirmed";
  deaths_global ←
    load_data_global "time_series_covid19_deaths_global.csv" "CumDeaths";
  let data_global := reset_index (merge confirmed_global deaths_global) in
  confirmed_us ←
    load_data_us "time_series_covid19_confirmed_US.csv" "CumConfirmed";
  deaths_us ←
    load_data_us "time_series_covid19_deaths_US.csv" "CumDeaths";
  let data_us := reset_index (merge confirmed_us deaths_us) in
  mret (data_global ++ data_us).

(** What is at [fileNamePickle]: nothing, a whole snapshot, or the
    beginning of one. *)
Inductive File :=
| NoFile
| Snapshot (data : Frame UnifiedRecord)
| Partial.

(** [DataFrame.to_pickle(path)] writes in place: it opens the file for
    writing, which empties it, and then dumps the table into it.  There
    is no temporary file and no rename.  [dump_ok] tells whether the dump
    runs to its end (the disk is not full, the process is not stopped);
    the file the call finds is lost either way. *)
Definition to_pickle_in_place (dump_ok : bool) (data : Frame UnifiedRecord)
    (f : File) : (Error + unit) * File :=
  let opened := Partial in
  if dump_ok then (inr (), Snapshot data) else (inl OSError, opened).

(** [refresh_data] with the file beside the world and the write done in
    place.  The [pickle] field of the world is not used here. *)
Definition refresh_data_in_place (dump_ok : bool) (w : World) (f : File)
    : (Error + Frame UnifiedRecord) * World * File :=
  match run build_table w with
  | (inl e, w') => (inl e, w', f)
  | (inr data, w') =>
      match to_pickle_in_place dump_ok data f with
      | (inl e, f') => (inl e, log w' EvWritePickle, f')
      | (inr _, f') => (inr data, log w' EvWritePickle, f')
      end
  end.

(** The four resources, in the order [refresh_data] reads them. *)
Definition resources : list string :=
  (λ f, baseURL +:+ f) <$>
    [ "time_series_covid19_confirmed_global.csv";
      "time_series_covid19_deaths_global.csv";
      "time_series_covid19_confirmed_US.csv";
      "time_series_covid19_deaths_US.csv" ].

Definition all_data : M (Frame UnifiedRecord) :=
  present ← isfile;
  (if present : bool then mret () else refresh_data;; mret ());;
  read_pickle.

(** [states.sort()] on the list built from [unique()]: comparing a
    missing value (a float) with a string raises [TypeError]. *)
Definition sort_states (states : list (option string))
    : Error + list string :=
  match mapM id states with
  | Some names => inr (merge_sort string_le names)
  | None => inl TypeError
  end.

(** The body of [update_states] after [all_data()]: the options of the
    dropdown as (label, value) pairs, and the selected value. *)
Definition states_of (d : Frame UnifiedRecord) (country : string)
    : Error + list (string * string) * string :=
  let states :=
    unique (Province_State ∘ snd <$> filter (λ ir, Country ir.2 = country) d) in
  let states := Some sentinel :: states in
  match sort_states states with
  | inl e => inl e
  | inr states =>
      let state_options := (λ s, (s, s)) <$> states in
      match state_options with
      | o :: _ => inr (state_options, o.2)
      | [] => inl IndexError
      end
  end.

Definition update_states (country : string)
    : M (list (string * string) * string) :=
  d ← all_data;
  match states_of d country with
  | inr r => mret r
  | inl e => raise e
  end.

(** The frame [data] of [filtered_data] before the new columns are
    attached.  [sProvince] is [None] where the column was dropped. *)
Record Selected := {
  sProvince : option (option string);
  sLat : Coord;
  sLong : Coord;
  sdate : Date;
  sCumConfirmed : option Z;
  sCumDeaths : option Z
}.

(** The frame [filtered_data] returns. *)
Record SeriesRow := {
  fProvince : option (option string);
  fLat : Coord;
  fLong : Coord;
  fdate : Date;
  fCumConfirmed : option Z;
  fCumDeaths : option Z;
  NewConfirmed : option Z;
  NewDeaths : option Z;
  dateStr : string;
  NewDeathsSMA7 : option Q;
  NewConfirmedSMA7 : option Q
}.

(** [d.loc[d['Country'] == country]]. *)
Definition select_country (d : Frame UnifiedRecord) (country : string)
    : Frame UnifiedRecord :=
  filter (λ ir, Country ir.2 = country) d.

(** [.drop('Province/State', axis=1).groupby("date").sum().reset_index()]. *)
Definition sum_by_date (data : Frame UnifiedRecord) : Frame Selected :=
  reset_index
    ((λ kg : Date * list (nat * UnifiedRecord),
        {| sProvince := None;
           sLat := fsum (Lat ∘ snd <$> kg.2);
           sLong := fsum (Long ∘ snd <$> kg.2);
           sdate := kg.1;
           sCumConfirmed := Some (Int64.sum (CumConfirmed ∘ snd <$> kg.2));
           sCumDeaths := Some (Int64.sum (CumDeaths ∘ snd <$> kg.2)) |})
       <$> groupby Z.le (λ ir, date ir.2) data).

(** [data.loc[data['Province/State'] == state]]. *)
Definition select_state (data : Frame UnifiedRecord) (state : string)
    : Frame Selected :=
  (λ ir : nat * UnifiedRecord,
     (ir.1, {| sProvince := Some (Province_State ir.2);
               sLat := Lat ir.2; sLong := Long ir.2; sdate := date ir.2;
               sCumConfirmed := CumConfirmed ir.2;
               sCumDeaths := CumDeaths ir.2 |}))
    <$> filter (λ ir, Province_State ir.2 = Some state) data.

(** [data.select_dtypes(include='Int64').diff().fillna(0)], columns
    [NewConfirmed] and [NewDeaths], on the index of [data]. *)
Definition new_cases (data : Frame Selected) : Frame (option Z * option Z) :=
  zip (fst <$> data)
      (zip (Int64.fillna 0 (Int64.diff (sCumConfirmed ∘ snd <$> data)))
           (Int64.fillna 0 (Int64.diff (sCumDeaths ∘ snd <$> data)))).

Definition series_row (x : Selected * (option Z * option Z))
    (sma : option Q * option Q) : SeriesRow :=
  {| fProvince := sProvince x.1; fLat := sLat x.1; fLong := sLong x.1;
     fdate := sdate x.1;
     fCumConfirmed := sCumConfirmed x.1; fCumDeaths := sCumDeaths x.1;
     NewConfirmed := x.2.1; NewDeaths := x.2.2;
     dateStr := strftime (sdate x.1);
     NewDeathsSMA7 := sma.1; NewConfirmedSMA7 := sma.2 |}.

(** The frame the differences are taken of. *)
Definition selection (d : Frame UnifiedRecord) (country state : string)
    : Frame Selected :=
  let data := select_country d country in
  if decide (state = sentinel) then sum_by_date data
  else select_state data state.

(** The body of [filtered_data] after [all_data()]. *)
Definition filter_frame (d : Frame UnifiedRecord) (country state : string)
    : Frame SeriesRow :=
  let data := selection d country state in
  let data := join data (new_cases data) in
  let deaths_sma := simple_moving_average ((λ x, x.2.2.2) <$> data) 7 in
  let confirmed_sma := simple_moving_average ((λ x, x.2.2.1) <$> data) 7 in
  zip_with (λ x sma, (x.1, series_row x.2 sma)) data
           (zip deaths_sma confirmed_sma).

Definition filtered_data (country state : string) : M (Frame SeriesRow) :=
  d ← all_data;
  mret (filter_frame d country state).

(** [countries = all_data()['Country'].unique()], sorted. *)
Definition countries : M (list string) :=
  d ← all_data;
  mret (merge_sort string_le (unique (Country ∘ snd <$> d))).

(** *** The charts: [barchart] and [add_trend_lines] *)

(** The values of a column that is drawn: an [Int64] column or a
    [float64] column. *)
Inductive Values :=
| Ints (l : list (option Z))
| Floats (l : list (option Q)).

(** [data[name]] for the columns whose names end in a metric name or in
    [SMA7], the ones [prefix + metric] and [prefix + metric + 'SMA7'] can
    name for a metric that has a colour; a name that is no column raises
    [KeyError]. *)
Definition column (data : Frame SeriesRow) (name : string) : Error + Values :=
  if decide (name = "CumConfirmed") then inr (Ints (fCumConfirmed <$> data.*2))
  else if decide (name = "CumDeaths") then inr (Ints (fCumDeaths <$> data.*2))
  else if decide (name = "NewConfirmed") then inr (Ints (NewConfirmed <$> data.*2))
  else if decide (name = "NewDeaths") then inr (Ints (NewDeaths <$> data.*2))
  else if decide (name = "NewDeathsSMA7")
       then inr (Floats (NewDeathsSMA7 <$> data.*2))
  else if decide (name = "NewConfirmedSMA7")
       then inr (Floats (NewConfirmedSMA7 <$> data.*2))
  else inl KeyError.

Inductive TraceKind := Bar | Scatter.

(** A trace of a figure: what varies between the traces the code makes
    (the constant outline and line widths are left out). *)
Record Trace := {
  kind : TraceKind;
  name : string;
  xs : list Date;
  ys : Values;
  color : string
}.

Record Figure := {
  traces : list Trace;
  yaxis_title : string;
  ticktext : list string;
  tickvals : list Date
}.

(** [{'Deaths': ..., 'Confirmed': ...}[metric]]. *)
Definition marker_color (metric : string) : Error + string :=
  if decide (metric = "Deaths") then inr "rgb(200,30,30)"
  else if decide (metric = "Confirmed") then inr "rgb(100,140,240)"
  else inl KeyError.

(** A list comprehension whose body may raise. *)
Fixpoint traverse {A B} (f : A → Error + B) (l : list A) : Error + list B :=
  match l with
  | [] => inr []
  | x :: tl =>
      match f x with
      | inl e => inl e
      | inr y =>
          match traverse f tl with
          | inl e => inl e
          | inr ys => inr (y :: ys)
          end
      end
  end.

(** One [go.Bar(...)] of [barchart]: the keyword arguments are evaluated
    in order, the column before the colour. *)
Definition bar (data : Frame SeriesRow) (prefix metric : string)
    : Error + Trace :=
  match column data (prefix +:+ metric) with
  | inl e => inl e
  | inr y =>
      match marker_color metric with
      | inl e => inl e
      | inr c =>
          inr {| kind := Bar; name := metric; xs := fdate <$> data.*2;
                 ys := y; color := c |}
      end
  end.

(** One [go.Scatter(...)] of [add_trend_lines]. *)
Definition trend_line (data : Frame SeriesRow) (prefix metric : string)
    : Error + Trace :=
  match column data (prefix +:+ metric +:+ "SMA7") with
  | inl e => inl e
  | inr y =>
      inr {| kind := Scatter;
             name := if decide (metric = "Deaths")
                     then "Rolling 7-Day Average of Deaths"
                     else "Rolling 7-Day Average of Confirmed";
             xs := fdate <$> data.*2; ys := y;
             color := if decide (metric = "Deaths") then "rgb(200,30,30)"
                      else "rgb(100,140,240)" |}
  end.

(** [add_trend_lines]: the traces of the figure afterwards. *)
Definition add_trend_lines (figure : list Trace) (data : Frame SeriesRow)
    (metrics : list string) (prefix : string) : Error + list Trace :=
  if decide (prefix = "New") then
    match traverse (trend_line data prefix) metrics with
    | inl e => inl e
    | inr lines => inr (figure ++ lines)
    end
  else inr figure.

Definition barchart (data : Frame SeriesRow) (metrics : list string)
    (prefix title : string) : Error + Figure :=
  match traverse (bar data prefix) metrics with
  | inl e => inl e
  | inr figure =>
      match add_trend_lines figure data metrics prefix with
      | inl e => inl e
      | inr figure =>
          inr {| traces := figure; yaxis_title := title;
                 ticktext := dateStr <$> data.*2;
                 tickvals := fdate <$> data.*2 |}
      end
  end.

(** The metrics that have a colour. *)
Definition known_metric (metric : string) : Prop :=
  metric = "Confirmed" ∨ metric = "Deaths".

Global Instance known_metric_dec metric : Decision (known_metric metric).
Proof. unfold known_metric. apply _. Defined.

(** The bar of a metric that has a colour. *)
Definition bar_of (data : Frame SeriesRow) (new : bool) (metric : string)
    : Trace :=
  {| kind := Bar; name := metric; xs := fdate <$> data.*2;
     ys := Ints ((if decide (metric = "Deaths")
                  then (if new then NewDeaths else fCumDeaths)
                  else (if new then NewConfirmed else fCumConfirmed))
                 <$> data.*2);
     color := if decide (metric = "Deaths") then "rgb(200,30,30)"
              else "rgb(100,140,240)" |}.

(** The trend line of a metric that has a colour. *)
Definition line_of (data : Frame SeriesRow) (metric : string) : Trace :=
  {| kind := Scatter;
     name := if decide (metric = "Deaths")
             then "Rolling 7-Day Average of Deaths"
             else "Rolling 7-Day Average of Confirmed";
     xs := fdate <$> data.*2;
     ys := Floats ((if decide (metric = "Deaths")
                    then NewDeathsSMA7 else NewConfirmedSMA7) <$> data.*2);
     color := if decide (metric = "Deaths") then "rgb(200,30,30)"
              else "rgb(100,140,240)" |}.

(** [update_plots]: the interval count [n] only triggers the call. *)
Definition update_plots (country state : string) (metrics : list string)
    (n : nat) : M (Figure * Figure) :=
  refresh_data;;
  data ← filtered_data country state;
  match barchart data metrics "New" "New Cases per Day" with
  | inl e => raise e
  | inr barchart_new =>
      match barchart data metrics "Cum" "Cumulated Cases" with
      | inl e => raise e
      | inr barchart_cum => mret (barchart_new, barchart_cum)
      end
  end.

End Pipeline.

(** ** Concrete tables and worlds *)

Module Examples.

(** Coordinates in whole degrees; the median of a group is the middle
    element of the sorted group (the lower one of two). *)
Definition zmedian (l : list Z) : Z :=
  default 0 (merge_sort Z.le l !! ((length l - 1) / 2)%nat).
Definition zsum (l : list Z) : Z := foldr Z.add 0 l.
Definition day_label (d : Date) : string := "".

Definition urow (c : string) (p : option string) (d : Date)
    (conf deaths : option Z) : UnifiedRecord (Coord := Z) :=
  {| Country := c; Province_State := p; Lat := 0; Long := 0; date := d;
     CumConfirmed := conf; CumDeaths := deaths |}.

Definition mrow (c : string) (p : option string) (lat : Z) (d : Date)
    (v : option Z) : MetricRow (Coord := Z) :=
  {| mCountry := c; mProvince := p; mLat := lat; mLong := 0; mdate := d;
     mvalue := v |}.

Definition wrow (c : string) (p : option string) (lat long : Z)
    (cells : list Z) : WideRow (Coord := Z) :=
  {| wCountry := c; wProvince := p; wLat := lat; wLong := long;
     wCells := Some <$> cells |}.

(** One country, aggregate rows only, as the global file gives for a
    country without provinces. *)
Definition testland : Frame (UnifiedRecord (Coord := Z)) :=
  reset_index
    (zip_with (λ d c, urow "Testland" (Some sentinel) d (Some c) (Some 0))
              [18262; 18263; 18264; 18265; 18266; 18267; 18268; 18269]
              [1; 1; 2; 4; 7; 11; 16; 22]).

(** A region with a gap in its cumulative column. *)
Definition gapland : Frame (UnifiedRecord (Coord := Z)) :=
  reset_index
    [ urow "Gapland" (Some "North") 18262 (Some 1) (Some 0);
      urow "Gapland" (Some "North") 18263 None (Some 0);
      urow "Gapland" (Some "North") 18264 (Some 3) (Some 0) ].

(** The same region in a snapshot of two parts, each labelled from 0 as
    [refresh_data] writes it: the labels 0, 1 and 2 occur twice. *)
Definition gap_snapshot : Frame (UnifiedRecord (Coord := Z)) :=
  testland ++ gapland.

(** A region whose rows are not in date order in the table. *)
Definition shuffled : Frame (UnifiedRecord (Coord := Z)) :=
  reset_index
    [ urow "Mixland" (Some "East") 18263 (Some 5) (Some 0);
      urow "Mixland" (Some "East") 18262 (Some 2) (Some 0) ].

(** A region whose name sorts before the sentinel. *)
Definition lowland : Frame (UnifiedRecord (Coord := Z)) :=
  reset_index
    [ urow "Lowland" (Some "(unassigned)") 18262 (Some 1) (Some 0) ].

(** Confirmed and death records of one entity and date whose
    coordinates differ between the two files. *)
Definition confirmed_moved : list (MetricRow (Coord := Z)) :=
  [ mrow "Testland" (Some sentinel) 10 18262 (Some 5) ].
Definition deaths_moved : list (MetricRow (Coord := Z)) :=
  [ mrow "Testland" (Some sentinel) 11 18262 (Some 1) ].

(** Records that repeat a key within each input. *)
Definition confirmed_twice : list (MetricRow (Coord := Z)) :=
  [ mrow "China" (Some "Hubei") 30 18262 (Some 5);
    mrow "China" (Some "Hubei") 30 18262 (Some 6) ].
Definition deaths_twice : list (MetricRow (Coord := Z)) :=
  [ mrow "China" (Some "Hubei") 30 18262 (Some 1);
    mrow "China" (Some "Hubei") 30 18262 (Some 2) ].

(** Records with aligned, unrepeated keys. *)
Definition confirmed_aligned : list (MetricRow (Coord := Z)) :=
  [ mrow "China" (Some "Hubei") 30 18262 (Some 5);
    mrow "China" (Some "Hubei") 30 18263 (Some 6) ].
Definition deaths_aligned : list (MetricRow (Coord := Z)) :=
  [ mrow "China" (Some "Hubei") 30 18263 (Some 2);
    mrow "China" (Some "Hubei") 30 18262 (Some 1) ].

(** Four small source files. *)
Definition days : list Date := [18262; 18263].

Definition confirmed_global : Csv (Coord := Z) :=
  {| csv_schema := GlobalSchema; csv_dates := days;
     csv_rows := [ wrow "China" (Some "Hubei") 30 112 [10; 20];
                   wrow "China" (Some "Beijing") 40 116 [1; 2];
                   wrow "Testland" None 5 5 [5; 7];
                   wrow "US" None 40 (-100) [4; 8] ] |}.

Definition deaths_global : Csv (Coord := Z) :=
  {| csv_schema := GlobalSchema; csv_dates := days;
     csv_rows := [ wrow "China" (Some "Hubei") 30 112 [1; 2];
                   wrow "China" (Some "Beijing") 40 116 [0; 1];
                   wrow "Testland" None 5 5 [0; 0];
                   wrow "US" None 40 (-100) [0; 1] ] |}.

Definition confirmed_us : Csv (Coord := Z) :=
  {| csv_schema := UsSchema true false; csv_dates := days;
     csv_rows := [ wrow "US" (Some "Alabama") 32 (-86) [1; 2];
                   wrow "US" (Some "Alabama") 33 (-87) [1; 3];
                   wrow "US" (Some "Alaska") 61 (-152) [2; 3] ] |}.

Definition deaths_us : Csv (Coord := Z) :=
  {| csv_schema := UsSchema true true; csv_dates := days;
     csv_rows := [ wrow "US" (Some "Alabama") 32 (-86) [0; 0];
                   wrow "US" (Some "Alabama") 33 (-87) [0; 1];
                   wrow "US" (Some "Alaska") 61 (-152) [0; 0] ] |}.

Definition files (us_deaths_there : bool) (url : string)
    : option (Csv (Coord := Z)) :=
  if decide (url = baseURL +:+ "time_series_covid19_confirmed_global.csv")
  then Some confirmed_global
  else if decide (url = baseURL +:+ "time_series_covid19_deaths_global.csv")
  then Some deaths_global
  else if decide (url = baseURL +:+ "time_series_covid19_confirmed_US.csv")
  then Some confirmed_us
  else if decide (url = baseURL +:+ "time_series_covid19_deaths_US.csv")
  then (if us_deaths_there then Some deaths_us else None)
  else None.

(** A first start: all files can be fetched, nothing on disk. *)
Definition fresh_world : World (Coord := Z) :=
  {| remote := files true; pickle := None; trace := [] |}.

(** A later refresh: a snapshot on disk, the last file cannot be fetched. *)
Definition stale_world : World (Coord := Z) :=
  {| remote := files false; pickle := Some testland; trace := [] |}.

(** The frame of the aggregate query on [testland]. *)
Definition testland_frame : Frame (SeriesRow (Coord := Z)) :=
  filter_frame zsum day_label testland "Testland" sentinel.

(** A start with the snapshot of one country on disk. *)
Definition cached_world : World (Coord := Z) :=
  {| remote := files true; pickle := Some testland; trace := [] |}.

(** A first start while the last file cannot be fetched. *)
Definition broken_world : World (Coord := Z) :=
  {| remote := files false; pickle := None; trace := [] |}.

(** A country with a row that has no Province/State. *)
Definition missingland : Frame (UnifiedRecord (Coord := Z)) :=
  reset_index
    [ urow "Voidland" (Some "West") 18262 (Some 1) (Some 0);
      urow "Voidland" None 18262 (Some 2) (Some 0) ].

(** A start with the snapshot of that country on disk. *)
Definition void_world : World (Coord := Z) :=
  {| remote := files true; pickle := Some missingland; trace := [] |}.

(** The table the four files make. *)
Definition unified : Frame (UnifiedRecord (Coord := Z)) :=
  match (run (refresh_data zmedian) fresh_world).1 with
  | inr t => t
  | inl _ => []
  end.

End Examples.

(** ** Facts about the column operations *)

Module Int64Facts.
Import Int64.

Lemma wrap_small z : - 2 ^ 63 ≤ z < 2 ^ 63 → wrap z = z.
Proof. intros Hz. unfold wrap. rewrite Z.mod_small; lia. Qed.

Lemma wrap_range z : - 2 ^ 63 ≤ wrap z < 2 ^ 63.
Proof.
  unfold wrap. pose proof (Z.mod_pos_bound (z + 2 ^ 63) (2 ^ 64)). lia.
Qed.

Lemma wrap_add_l a b : wrap (wrap a + b) = wrap (a + b).
Proof.
  unfold wrap. f_equal.
  replace ((a + 2 ^ 63) mod 2 ^ 64 - 2 ^ 63 + b + 2 ^ 63)
    with ((a + 2 ^ 63) mod 2 ^ 64 + b) by lia.
  rewrite Zplus_mod_idemp_l. f_equal. lia.
Qed.

Lemma foldl_sum_total l acc :
  foldl (λ acc x, match x with Some v => add acc v | None => acc end)
        (wrap acc) l
  = wrap (acc + total l).
Proof.
  revert acc. induction l as [|[v|] l IH]; intros acc; simpl.
  - by rewrite Z.add_0_r.
  - unfold add at 2. rewrite wrap_add_l, IH. f_equal. lia.
  - rewrite IH. done.
Qed.

(** The column sum is the sum of the present cells, wrapped once. *)
Lemma sum_total l : sum l = wrap (total l).
Proof.
  unfold sum. change 0 with (wrap 0) at 1. by rewrite foldl_sum_total.
Qed.

Lemma sum_exact l : - 2 ^ 63 ≤ total l < 2 ^ 63 → sum l = total l.
Proof. intros. rewrite sum_total. by apply wrap_small. Qed.

Lemma total_app l k : total (l ++ k) = total l + total k.
Proof. induction l as [|x l IH]; simpl; [done|]. rewrite IH. lia. Qed.

Lemma total_fillna l : total (fillna 0 l) = total l.
Proof.
  unfold fillna. induction l as [|[v|] l IH]; csimpl; [done| |];
    by rewrite IH.
Qed.

(** Summing treats a missing cell as zero. *)
Lemma sum_fillna l : sum (fillna 0 l) = sum l.
Proof. by rewrite !sum_total, total_fillna. Qed.

Lemma total_filter_split {A} (f : A → option Z) (P : A → Prop)
    `{∀ x, Decision (P x)} (l : list A) :
  total (f <$> l)
  = total (f <$> filter P l) + total (f <$> filter (λ x, ¬ P x) l).
Proof.
  induction l as [|x l IH]; [done|].
  rewrite !filter_cons.
  destruct (decide (P x)), (decide (¬ P x)); try tauto; csimpl; lia.
Qed.

Lemma length_diff l : length (diff l) = length l.
Proof.
  destruct l as [|x l]; [done|]. simpl. f_equal.
  rewrite length_zip_with. simpl. lia.
Qed.

Lemma length_fillna v l : length (fillna v l) = length l.
Proof. apply length_fmap. Qed.

Lemma fillna_is_Some v l : Forall is_Some (fillna v l).
Proof.
  unfold fillna. apply Forall_fmap, Forall_true. intros [x|]; simpl; eauto.
Qed.

(** Row [i] of [diff]. *)
Lemma lookup_diff_0 l : diff l !! O = (λ _, None) <$> l !! O.
Proof. by destruct l. Qed.

Lemma lookup_diff_S l j :
  diff l !! S j =
    match l !! S j, l !! j with
    | Some a, Some b => Some (sub_na a b)
    | _, _ => None
    end.
Proof.
  destruct l as [|x l]; [done|]. simpl.
  rewrite lookup_zip_with.
  destruct (l !! j) as [a|] eqn:Ha; simpl; [|done].
  destruct ((x :: l) !! j) as [b|] eqn:Hb; simpl; [done|].
  apply lookup_ge_None in Hb. apply lookup_lt_Some in Ha. simpl in Hb. lia.
Qed.

End Int64Facts.

(** ** Facts about the table operations *)

Section TableFacts.

Lemma elem_of_unique {K} `{EqDecision K} (l : list K) x :
  x ∈ unique l ↔ x ∈ l.
Proof.
  induction l as [|y l IH]; simpl; [done|].
  rewrite !elem_of_cons, list_elem_of_filter, IH.
  destruct (decide (x = y)) as [->|Hne]; [tauto|].
  split; [intros [?|[_ ?]]; tauto | intros [?|?]; [done|by right]].
Qed.

Lemma NoDup_unique {K} `{EqDecision K} (l : list K) : NoDup (unique l).
Proof.
  induction l as [|y l IH]; simpl; constructor.
  - rewrite list_elem_of_filter. by intros [? _].
  - by apply NoDup_filter.
Qed.

Lemma length_reset_index {A} (l : list A) :
  length (reset_index l) = length l.
Proof. apply length_imap. Qed.

Lemma snd_reset_index {A} (l : list A) : (reset_index l).*2 = l.
Proof.
  unfold reset_index. rewrite fmap_imap.
  induction l as [|x l IH] using rev_ind; [done|].
  rewrite imap_app, IH. simpl. done.
Qed.

Lemma fst_reset_index {A} (l : list A) :
  (reset_index l).*1 = seq 0 (length l).
Proof.
  unfold reset_index. rewrite fmap_imap.
  induction l as [|x l IH] using rev_ind; [done|].
  rewrite imap_app, IH, length_app, seq_app. simpl.
  by rewrite Nat.add_0_r.
Qed.

Lemma NoDup_reset_index {A} (l : list A) : NoDup (reset_index l).*1.
Proof. rewrite fst_reset_index. apply NoDup_seq. Qed.

Lemma filter_none {X} (P : X → Prop) `{∀ x, Decision (P x)} (xs : list X) :
  (∀ x, x ∈ xs → ¬ P x) → filter P xs = [].
Proof.
  induction xs as [|x xs IH]; intros Hall; [done|].
  rewrite filter_cons, decide_False by (apply Hall; left).
  apply IH. intros y Hy. apply Hall. by right.
Qed.

Lemma filter_fmap {X Y} (f : X → Y) (P : Y → Prop) `{∀ y, Decision (P y)}
    (xs : list X) :
  filter P (f <$> xs) = f <$> filter (λ x, P (f x)) xs.
Proof.
  induction xs as [|x xs IH]; [done|].
  rewrite fmap_cons, !filter_cons, IH. by destruct (decide (P (f x))).
Qed.

(** In a list without repeated keys, selecting one key that occurs
    gives the one row that carries it. *)
Lemma filter_key_singleton {X K} `{EqDecision K} (kx : X → K)
    (xs : list X) (x0 : X) :
  NoDup (kx <$> xs) → x0 ∈ xs →
  filter (λ x, kx x = kx x0) xs = [x0].
Proof.
  induction xs as [|x xs IH]; intros Hnd Hin; [by inversion Hin|].
  rewrite fmap_cons in Hnd. apply NoDup_cons in Hnd as [Hx Hnd].
  rewrite filter_cons.
  apply elem_of_cons in Hin as [->|Hin].
  - rewrite decide_True by done. f_equal.
    apply filter_none. intros y Hy Heq. apply Hx. rewrite <- Heq.
    by apply list_elem_of_fmap_2.
  - rewrite decide_False; [by apply IH|].
    intros Heq. apply Hx. rewrite Heq. by apply list_elem_of_fmap_2.
Qed.

Section groupby.
Context {A K : Type} `{EqDecision K} (le : relation K)
        `{∀ x y, Decision (le x y)} (key : A → K).

Lemma groupby_keys l :
  (groupby le key l).*1 = merge_sort le (unique (key <$> l)).
Proof.
  unfold groupby. rewrite <- list_fmap_compose.
  rewrite <- (list_fmap_id (merge_sort _ _)) at 2.
  by apply list_fmap_ext.
Qed.

Lemma NoDup_groupby_keys l : NoDup (groupby le key l).*1.
Proof.
  rewrite groupby_keys, merge_sort_Permutation. apply NoDup_unique.
Qed.

Lemma elem_of_groupby_keys l k :
  k ∈ (groupby le key l).*1 ↔ k ∈ key <$> l.
Proof.
  by rewrite groupby_keys, merge_sort_Permutation, elem_of_unique.
Qed.

Lemma elem_of_groupby l kg :
  kg ∈ groupby le key l ↔
  kg.1 ∈ key <$> l ∧ kg.2 = filter (λ r, key r = kg.1) l.
Proof.
  unfold groupby. rewrite list_elem_of_fmap. split.
  - intros (k & -> & Hk). simpl. split; [|done].
    by rewrite merge_sort_Permutation, elem_of_unique in Hk.
  - intros [Hk Hg]. exists kg.1. split.
    + destruct kg; simpl in *; by subst.
    + by rewrite merge_sort_Permutation, elem_of_unique.
Qed.

(** The rows a reducer makes of the groups: the row of key [k]. *)
Lemma filter_groupby_key {B} (f : K * list A → B) (kb : B → K) l k :
  (∀ kg, kb (f kg) = kg.1) → k ∈ key <$> l →
  filter (λ b, kb b = k) (f <$> groupby le key l)
  = [f (k, filter (λ r, key r = k) l)].
Proof.
  intros Hkb Hk.
  set (g0 := (k, filter (λ r, key r = k) l)).
  assert (g0 ∈ groupby le key l) as Hin by (by apply elem_of_groupby).
  assert (NoDup ((kb ∘ f) <$> groupby le key l)) as Hnd.
  { erewrite list_fmap_ext; [apply NoDup_groupby_keys|].
    intros ? kg _. simpl. apply Hkb. }
  pose proof (filter_key_singleton (kb ∘ f) _ g0 Hnd Hin) as Hf.
  rewrite (list_filter_iff _ (λ b, kb b = kb (f g0))).
  2:{ intros b. by rewrite Hkb. }
  rewrite filter_fmap.
  erewrite (list_filter_iff _ (λ x, (kb ∘ f) x = (kb ∘ f) g0)); [|done].
  by rewrite Hf.
Qed.

(** No group has a key that no row carries. *)
Lemma filter_groupby_no_key {B} (f : K * list A → B) (kb : B → K) l k :
  (∀ kg, kb (f kg) = kg.1) → k ∉ key <$> l →
  filter (λ b, kb b = k) (f <$> groupby le key l) = [].
Proof.
  intros Hkb Hk. apply filter_none. intros b Hb Heq.
  apply list_elem_of_fmap in Hb as (kg & -> & Hkg).
  apply elem_of_groupby in Hkg as [Hin _].
  rewrite Hkb in Heq. by subst.
Qed.

End groupby.

(** The groups of [groupby] over dates come in strictly ascending order. *)
Lemma groupby_dates_sorted {A} (key : A → Date) (l : list A) :
  StronglySorted Z.lt (groupby Z.le key l).*1.
Proof.
  pose proof (NoDup_groupby_keys Z.le key l) as Hnd.
  assert (StronglySorted Z.le (groupby Z.le key l).*1) as Hs.
  { rewrite groupby_keys. apply StronglySorted_merge_sort; apply _. }
  induction Hs as [|x xs Hs IH Hx]; [constructor|].
  apply NoDup_cons in Hnd as [Hnx Hnd]. constructor; [by apply IH|].
  apply Forall_forall. intros y Hy.
  rewrite Forall_forall in Hx. specialize (Hx y Hy).
  assert (x ≠ y) by (by intros ->). lia.
Qed.

Lemma join_cons {A B} (x : nat * A) (l : Frame A) (r : Frame B) :
  join (x :: l) r
  = ((λ y : nat * B, (x.1, (x.2, y.2))) <$> filter (λ y : nat * B, y.1 = x.1) r)
    ++ join l r.
Proof.
  unfold join. rewrite bind_cons. f_equal.
Qed.

Lemma join_cons_other {A B} (l : Frame A) (y : nat * B) (r : Frame B) :
  y.1 ∉ l.*1 → join l (y :: r) = join l r.
Proof.
  induction l as [|x l IH]; intros Hy; [done|].
  rewrite fmap_cons, not_elem_of_cons in Hy. destruct Hy as [Hne Hy].
  rewrite !join_cons, IH by done. f_equal.
  by rewrite (filter_cons (λ y0 : nat * B, y0.1 = x.1)), decide_False.
Qed.

(** With distinct labels on the left and the same labels on the right,
    [join] pairs the rows by position. *)
Lemma join_by_position {A B} (l : Frame A) (vs : list B) :
  NoDup l.*1 → length vs = length l →
  join l (zip l.*1 vs) = zip_with (λ x v, (x.1, (x.2, v))) l vs.
Proof.
  revert vs. induction l as [|x l IH]; intros vs Hnd Hlen; [done|].
  destruct vs as [|v vs]; [done|].
  rewrite fmap_cons in Hnd. apply NoDup_cons in Hnd as [Hx Hnd].
  rewrite fmap_cons. cbn [zip zip_with].
  rewrite join_cons, join_cons_other by done.
  fold (zip l.*1 vs). rewrite IH by (simpl in Hlen; auto with lia).
  rewrite (filter_cons (λ y0 : nat * B, y0.1 = x.1)), decide_True by done.
  rewrite (filter_none (λ y0 : nat * B, y0.1 = x.1)); [done|].
  intros [i w] Hy Heq. apply Hx. rewrite <- Heq.
  by apply elem_of_zip_l in Hy.
Qed.

(** Whatever the labels, every row [join] returns pairs a left row
    with some right row. *)
Lemma elem_of_join {A B} (l : Frame A) (r : Frame B) z :
  z ∈ join l r ↔
  ∃ x y, x ∈ l ∧ y ∈ r ∧ y.1 = x.1 ∧ z = (x.1, (x.2, y.2)).
Proof.
  unfold join. rewrite list_elem_of_bind. split.
  - intros (x & Hz & Hx). apply list_elem_of_bind in Hz as (y & Hz & Hy).
    apply list_elem_of_filter in Hy as [Heq Hy].
    apply list_elem_of_singleton in Hz. by exists x, y.
  - intros (x & y & Hx & Hy & Heq & ->). exists x. split; [|done].
    apply list_elem_of_bind. exists y. split; [by apply list_elem_of_singleton|].
    by apply list_elem_of_filter.
Qed.

End TableFacts.

(** ** The reshape and the global aggregation *)

Section LoadFacts.

Context {Coord : Type} `{EqDecision Coord}.
Variable median : list Coord → Coord.

Abbreviation WideRow := (@WideRow Coord).
Abbreviation MetricRow := (@MetricRow Coord).

Lemma length_melt_from j dates (rows : list WideRow) :
  length (melt_from j dates rows) = (length rows * length dates)%nat.
Proof.
  revert j. induction dates as [|d ds IH]; intros j; simpl; [lia|].
  rewrite length_app, length_fmap, IH. lia.
Qed.

(** C9: the reshape of [load_data_global] turns a table of R rows and D
    date columns into a long table of exactly R × D rows. *)
Theorem melt_row_count dates (rows : list WideRow) :
  length (melt dates rows) = (length rows * length dates)%nat.
Proof. apply length_melt_from. Qed.

Lemma elem_of_melt_from j dates (rows : list WideRow) (r : MetricRow) :
  r ∈ melt_from j dates rows ↔
  ∃ i d w, dates !! i = Some d ∧ w ∈ rows ∧ r = melt_cell (j + i) d w.
Proof.
  revert j. induction dates as [|d ds IH]; intros j; simpl.
  - split; [by intros ?%elem_of_nil|]. by intros (i & ? & ? & ? & _).
  - rewrite elem_of_app, list_elem_of_fmap, IH. split.
    + intros [(w & -> & Hw)|(i & d' & w & Hi & Hw & ->)].
      * exists 0%nat, d, w. by rewrite Nat.add_0_r.
      * exists (S i), d', w. split; [done|]. split; [done|].
        f_equal. lia.
    + intros (i & d' & w & Hi & Hw & ->). destruct i as [|i].
      * left. exists w. injection Hi as ->. by rewrite Nat.add_0_r.
      * right. exists i, d', w. split; [done|]. split; [done|].
        f_equal. lia.
Qed.

Lemma melt_key_elem dates (rows : list WideRow) c d :
  (c, d) ∈ (λ r : MetricRow, (mCountry r, mdate r)) <$> melt dates rows ↔
  c ∈ wCountry <$> rows ∧ d ∈ dates.
Proof.
  unfold melt. rewrite !list_elem_of_fmap. split.
  - intros (r & Heq & Hr). apply elem_of_melt_from in Hr as (i & d' & w & Hi & Hw & ->).
    injection Heq as -> ->. split; [by exists w|].
    by eapply list_elem_of_lookup_2.
  - intros [(w & -> & Hw) Hd].
    apply list_elem_of_lookup_1 in Hd as [i Hi].
    exists (melt_cell i d w). split; [done|].
    apply elem_of_melt_from. by exists i, d, w.
Qed.

(** C4: in the table [load_data_global] builds, a country of the file
    has on every date of the file exactly one aggregate row, carrying
    the sentinel and the 64-bit sum of the country's rows of that date;
    for China that row is followed by all the original rows of that
    date (the summands), for any other country by nothing. *)
Theorem global_frame_per_date dates (rows : list WideRow) c d :
  c ∈ wCountry <$> rows → d ∈ dates →
  let originals :=
    filter (λ r : MetricRow, mCountry r = c ∧ mdate r = d) (melt dates rows) in
  ∃ agg : MetricRow,
    filter (λ r : MetricRow, mCountry r = c ∧ mdate r = d)
           (global_frame median dates rows)
    = agg :: (if decide (c = "China") then originals else [])
    ∧ mProvince agg = Some sentinel
    ∧ mvalue agg = Some (Int64.sum (mvalue <$> originals))
    ∧ Int64.sum (mvalue <$> originals)
      = Int64.wrap (Int64.total (mvalue <$> originals)).
Proof.
  intros Hc Hd originals.
  exists (agg_row median c sentinel d originals).
  split; [|split; [done|split; [done|apply Int64Facts.sum_total]]].
  unfold global_frame. rewrite filter_app.
  change (agg_row median c sentinel d originals :: ?t)
    with ([agg_row median c sentinel d originals] ++ t).
  f_equal.
  - unfold aggregate_global.
    rewrite (list_filter_iff _ (λ r : MetricRow, (mCountry r, mdate r) = (c, d))).
    2:{ intros r. split; [by intros [-> ->]|by intros [= -> ->]]. }
    rewrite (filter_groupby_key key2_le
               (λ r : MetricRow, (mCountry r, mdate r))
               (λ kg, agg_row median kg.1.1 sentinel kg.1.2 kg.2)
               (λ r : MetricRow, (mCountry r, mdate r)) _ (c, d)).
    + simpl. do 2 f_equal. unfold originals. apply list_filter_iff.
      intros r. split; [by intros [= -> ->]|by intros [-> ->]].
    + by intros [[] ?].
    + by apply melt_key_elem.
  - rewrite list_filter_filter. destruct (decide (c = "China")) as [->|Hne].
    + unfold originals. apply list_filter_iff. intros r. tauto.
    + apply filter_none. intros r _ [[Hc' _] Hch]. congruence.
Qed.

(** X17: in the table of [load_data_global], a country that is not in
    the file, or a date that is not a column of it, has no row. *)
Lemma global_frame_no_rows dates (rows : list WideRow) c d :
  ¬ (c ∈ wCountry <$> rows ∧ d ∈ dates) →
  filter (λ r : MetricRow, mCountry r = c ∧ mdate r = d)
         (global_frame median dates rows) = [].
Proof.
  intros Hno. unfold global_frame. rewrite filter_app.
  assert ((c, d) ∉ (λ r : MetricRow, (mCountry r, mdate r)) <$> melt dates rows)
    as Hk by (by rewrite melt_key_elem).
  rewrite (filter_none _ (filter _ _)).
  2:{ intros r Hr [<- <-]. apply list_elem_of_filter in Hr as [_ Hr].
      apply Hk. apply list_elem_of_fmap. by exists r. }
  rewrite app_nil_r. unfold aggregate_global.
  rewrite (list_filter_iff _ (λ r : MetricRow, (mCountry r, mdate r) = (c, d))).
  2:{ intros r. split; [by intros [-> ->]|by intros [= -> ->]]. }
  apply (filter_groupby_no_key key2_le
           (λ r : MetricRow, (mCountry r, mdate r))
           (λ kg, agg_row median kg.1.1 sentinel kg.1.2 kg.2)
           (λ r : MetricRow, (mCountry r, mdate r))); [|done].
  by intros [[] ?].
Qed.

End LoadFacts.

(** ** The merge of the two metrics *)

Section MergeFacts.

Context {Coord : Type} `{EqDecision Coord}.

Abbreviation MetricRow := (@MetricRow Coord).

Lemma elem_of_merge (A B : list MetricRow) u :
  u ∈ merge A B ↔
  ∃ a b, a ∈ A ∧ b ∈ B ∧ merge_key a = merge_key b ∧ u = merge_row a b.
Proof.
  unfold merge. rewrite list_elem_of_bind. split.
  - intros (a & Hu & Ha). apply list_elem_of_fmap in Hu as (b & -> & Hb).
    apply list_elem_of_filter in Hb as [Hk Hb]. by exists a, b.
  - intros (a & b & Ha & Hb & Hk & ->). exists a. split; [|done].
    apply list_elem_of_fmap. exists b. split; [done|].
    by apply list_elem_of_filter.
Qed.

Lemma length_merge_cons_l a (A B : list MetricRow) :
  length (merge (a :: A) B) = (matches (merge_key a) B + length (merge A B))%nat.
Proof.
  unfold merge, matches. by rewrite bind_cons, length_app, length_fmap.
Qed.

Lemma matches_cons k b (B : list MetricRow) :
  matches k (b :: B)
  = ((if decide (merge_key b = k) then 1 else 0) + matches k B)%nat.
Proof.
  unfold matches. rewrite filter_cons. by destruct (decide (merge_key b = k)).
Qed.

Lemma length_merge_cons_r b (A B : list MetricRow) :
  length (merge A (b :: B)) = (matches (merge_key b) A + length (merge A B))%nat.
Proof.
  induction A as [|a A IH]; [done|].
  rewrite !length_merge_cons_l, IH, !matches_cons.
  destruct (decide (merge_key b = merge_key a)),
           (decide (merge_key a = merge_key b)); try congruence; lia.
Qed.

Lemma length_merge_comm (A B : list MetricRow) :
  length (merge A B) = length (merge B A).
Proof.
  induction A as [|a A IH].
  - induction B as [|b B IHB]; [done|].
    by rewrite length_merge_cons_l, <- IHB.
  - by rewrite length_merge_cons_l, length_merge_cons_r, IH.
Qed.

Lemma matches_NoDup k (B : list MetricRow) :
  NoDup (merge_key <$> B) →
  matches k B = (if decide (k ∈ merge_key <$> B) then 1 else 0)%nat.
Proof.
  intros Hnd. unfold matches. destruct (decide _) as [Hin|Hout].
  - apply list_elem_of_fmap in Hin as (b & -> & Hb).
    by rewrite (filter_key_singleton merge_key B b).
  - rewrite filter_none; [done|]. intros b Hb <-. apply Hout.
    by apply list_elem_of_fmap_2.
Qed.

Lemma length_merge_le_l (A B : list MetricRow) :
  NoDup (merge_key <$> B) → (length (merge A B) ≤ length A)%nat.
Proof.
  intros Hnd. induction A as [|a A IH]; [done|].
  rewrite length_merge_cons_l, matches_NoDup by done.
  simpl. destruct (decide _); lia.
Qed.

Lemma length_merge_covered (A B : list MetricRow) :
  NoDup (merge_key <$> B) →
  (∀ k, k ∈ merge_key <$> A → k ∈ merge_key <$> B) →
  length (merge A B) = length A.
Proof.
  intros Hnd. induction A as [|a A IH]; intros Hsub; [done|].
  rewrite length_merge_cons_l, matches_NoDup by done.
  rewrite decide_True by (apply Hsub; rewrite fmap_cons; left).
  rewrite IH; [done|]. intros k Hk. apply Hsub. rewrite fmap_cons. by right.
Qed.

(** C3, as the code has it: [merge] joins on every shared column,
    (Country, Province/State, Lat, Long, date).  A merged row exists
    exactly for each pair of a confirmed and a death record with equal
    keys; when no key repeats within an input, the result is no longer
    than the shorter input, and as long as both when they carry the
    same keys. *)
Theorem merge_inner_join (A B : list MetricRow) :
  (∀ u, u ∈ merge A B ↔
        ∃ a b, a ∈ A ∧ b ∈ B ∧ merge_key a = merge_key b ∧ u = merge_row a b)
  ∧ (NoDup (merge_key <$> A) → NoDup (merge_key <$> B) →
     (length (merge A B) ≤ length A `min` length B)%nat
     ∧ ((∀ k, k ∈ merge_key <$> A ↔ k ∈ merge_key <$> B) →
        length (merge A B) = length A ∧ length (merge A B) = length B)).
Proof.
  split; [apply elem_of_merge|]. intros HA HB. split.
  - pose proof (length_merge_le_l A B HB).
    pose proof (length_merge_le_l B A HA).
    rewrite (length_merge_comm B A) in *. lia.
  - intros Hk.
    assert (length (merge A B) = length A) as ->
      by (apply length_merge_covered; [done|intros k; apply Hk]).
    split; [done|].
    rewrite <- (length_fmap merge_key A), <- (length_fmap merge_key B).
    apply Permutation_length. by apply NoDup_Permutation.
Qed.

End MergeFacts.

(** ** The cache: [refresh_data] and [all_data] *)

Section CacheFacts.

Context {Coord : Type} `{EqDecision Coord}.
Variable median : list Coord → Coord.

Abbreviation World := (@World Coord).
Abbreviation Table := (Frame (@UnifiedRecord Coord)).

Lemma run_load_data_global file col (w : World) :
  run (load_data_global median file col) w =
    (match remote w (baseURL +:+ file) with
     | None => inl FetchError
     | Some csv =>
         match csv_schema csv with
         | GlobalSchema => inr (global_frame median (csv_dates csv) (csv_rows csv))
         | UsSchema _ _ => inl KeyError
         end
     end, log w (EvFetch (baseURL +:+ file))).
Proof.
  unfold load_data_global, read_csv. cbn.
  destruct (remote w _) as [csv|]; [|done]. by destruct (csv_schema csv).
Qed.

Lemma run_load_data_us file col (w : World) :
  run (load_data_us median file col) w =
    (match remote w (baseURL +:+ file) with
     | None => inl FetchError
     | Some csv =>
         match csv_schema csv with
         | UsSchema true _ => inr (us_frame median (csv_dates csv) (csv_rows csv))
         | _ => inl KeyError
         end
     end, log w (EvFetch (baseURL +:+ file))).
Proof.
  unfold load_data_us, read_csv. cbn.
  destruct (remote w _) as [csv|]; [|done].
  by destruct (csv_schema csv) as [|[] ?].
Qed.

Lemma run_bind {A B} (m : M A) (f : A → M B) (w : World) :
  run (m ≫= f) w =
    match run m w with
    | (inr a, w') => run (f a) w'
    | (inl e, w') => (inl e, w')
    end.
Proof. done. Qed.

(** What one run of [refresh_data] does to the world. *)
Lemma refresh_data_run (w : World) r w' :
  run (refresh_data median) w = (r, w') →
  remote w' = remote w ∧
  match r with
  | inl _ =>
      pickle w' = pickle w ∧
      ∃ n, (n < 4)%nat ∧
           trace w' = trace w ++ (EvFetch <$> take (S n) resources)
  | inr t =>
      pickle w' = Some t ∧
      trace w' = trace w ++ (EvFetch <$> resources) ++ [EvWritePickle]
  end.
Proof.
  unfold refresh_data.
  rewrite run_bind, run_load_data_global.
  destruct (remote w _) as [c1|] eqn:R1; cycle 1.
  { intros [= <- <-]. simpl. repeat split. exists 0%nat. split; [lia|done]. }
  destruct (csv_schema c1) eqn:S1; cycle 1.
  { intros [= <- <-]. simpl. repeat split. exists 0%nat. split; [lia|done]. }
  rewrite run_bind, run_load_data_global. cbn [remote log].
  destruct (remote w _) as [c2|] eqn:R2 at 1; cycle 1.
  { intros [= <- <-]. simpl. repeat split. exists 1%nat. split; [lia|].
    by rewrite <- app_assoc. }
  destruct (csv_schema c2) eqn:S2; cycle 1.
  { intros [= <- <-]. simpl. repeat split. exists 1%nat. split; [lia|].
    by rewrite <- app_assoc. }
  rewrite run_bind, run_load_data_us. cbn [remote log].
  destruct (remote w _) as [c3|] eqn:R3 at 1; cycle 1.
  { intros [= <- <-]. simpl. repeat split. exists 2%nat. split; [lia|].
    by rewrite <- !app_assoc. }
  destruct (csv_schema c3) as [|[] ?] eqn:S3.
  1,3: intros [= <- <-]; simpl; repeat split; exists 2%nat; (split; [lia|]);
    by rewrite <- !app_assoc.
  rewrite run_bind, run_load_data_us. cbn [remote log].
  destruct (remote w _) as [c4|] eqn:R4 at 1; cycle 1.
  { intros [= <- <-]. simpl. repeat split. exists 3%nat. split; [lia|].
    by rewrite <- !app_assoc. }
  destruct (csv_schema c4) as [|[] ?] eqn:S4.
  1,3: intros [= <- <-]; simpl; repeat split; exists 3%nat; (split; [lia|]);
    by rewrite <- !app_assoc.
  cbn. intros [= <- <-]. simpl. repeat split. by rewrite <- !app_assoc.
Qed.

(** With the write taken as one step: a run of [refresh_data] that
    raises, at whichever load, leaves the persisted snapshot as it was
    and has written nothing; a run that returns has written the snapshot
    once, as its last step, after all four resources were fetched, and
    the snapshot is the table returned. *)
Theorem refresh_failure_keeps_snapshot (w : World) r w' :
  run (refresh_data median) w = (r, w') →
  match r with
  | inl _ =>
      pickle w' = pickle w ∧
      ∃ evs, trace w' = trace w ++ evs ∧ EvWritePickle ∉ evs
  | inr t =>
      pickle w' = Some t ∧
      ∃ evs, (trace w' = trace w ++ evs ++ [EvWritePickle]) ∧
             (EvWritePickle ∉ evs) ∧ (fetches evs = resources)
  end.
Proof.
  intros Hrun. apply refresh_data_run in Hrun as [_ Hrun].
  destruct r as [e|t].
  - destruct Hrun as (Hp & n & Hn & Htr). split; [done|].
    eexists. split; [done|].
    intros (u & Hu & _)%list_elem_of_fmap. done.
  - destruct Hrun as [Hp Htr]. split; [done|].
    eexists. split; [done|]. split; [|done].
    intros (u & Hu & _)%list_elem_of_fmap. done.
Qed.

Lemma run_read_pickle (w : World) :
  run read_pickle w =
    (match pickle w with
     | Some t => inr t
     | None => inl FileNotFoundError
     end, log w EvReadPickle).
Proof. unfold read_pickle. cbn. by destruct (pickle w). Qed.

Lemma run_all_data (w : World) :
  run (all_data median) w =
    match pickle w with
    | Some _ => run read_pickle w
    | None =>
        match run (refresh_data median) w with
        | (inr _, w') => run read_pickle w'
        | (inl e, w') => (inl e, w')
        end
    end.
Proof.
  unfold all_data. rewrite run_bind. cbn [isfile run].
  destruct (pickle w) as [t|]; [done|].
  rewrite bool_decide_eq_false_2 by (by intros [? ?]).
  rewrite !run_bind. by destruct (run (refresh_data median) w) as [[e|t] w'].
Qed.

(** C2: with no snapshot on disk [all_data] runs [refresh_data] once
    and returns the table it returned (or raises what it raised); with a
    snapshot on disk it returns the snapshot after reading the file and
    nothing else, so a load that follows a load fetches nothing. *)
Theorem all_data_uses_cache (w : World) :
  (pickle w = None →
   run (all_data median) w =
     match run (refresh_data median) w with
     | (inr t, w') => (inr t, log w' EvReadPickle)
     | (inl e, w') => (inl e, w')
     end)
  ∧ (∀ t, pickle w = Some t →
          run (all_data median) w = (inr t, log w EvReadPickle))
  ∧ (∀ t w1, run (all_data median) w = (inr t, w1) →
             run (all_data median) w1 = (inr t, log w1 EvReadPickle)
             ∧ fetches (trace (log w1 EvReadPickle)) = fetches (trace w1)).
Proof.
  assert (∀ (w0 : World) t, pickle w0 = Some t →
            run (all_data median) w0 = (inr t, log w0 EvReadPickle)) as Hhit.
  { intros w0 t Hp. by rewrite run_all_data, Hp, run_read_pickle, Hp. }
  split; [|split; [by apply Hhit|]].
  - intros Hp. rewrite run_all_data, Hp.
    destruct (run (refresh_data median) w) as [[e|t] w'] eqn:Hrun; [done|].
    apply refresh_data_run in Hrun as [_ [Hp' _]].
    by rewrite run_read_pickle, Hp'.
  - intros t w1 Hrun.
    assert (pickle w1 = Some t) as Hp1.
    { rewrite run_all_data in Hrun.
      destruct (pickle w) as [t0|] eqn:Hp.
      - rewrite run_read_pickle, Hp in Hrun. by injection Hrun as <- <-.
      - destruct (run (refresh_data median) w) as [[e|t1] w'] eqn:Hr; [done|].
        apply refresh_data_run in Hr as [_ [Hp' _]].
        rewrite run_read_pickle, Hp' in Hrun. by injection Hrun as <- <-. }
    split; [by apply Hhit|].
    unfold fetches, log. simpl. by rewrite omap_app, app_nil_r.
Qed.

End CacheFacts.

(** ** The query: [filtered_data] *)

Section QueryFacts.

Context {Coord : Type} `{EqDecision Coord}.
Variable fsum : list Coord → Coord.
Variable strftime : Date → string.

Abbreviation Table := (Frame (@UnifiedRecord Coord)).
Abbreviation Selected := (@Selected Coord).
Abbreviation SeriesRow := (@SeriesRow Coord).

Lemma fmap_zip_with_left {A B C D} (f : A → B → C) (g : C → D) (h : A → D)
    (l : list A) (k : list B) :
  (∀ x y, g (f x y) = h x) → (length l ≤ length k)%nat →
  g <$> zip_with f l k = h <$> l.
Proof.
  intros Hg. revert k. induction l as [|x l IH]; intros [|y k] Hlen;
    simpl in *; try done; try lia.
  rewrite Hg, IH by lia. done.
Qed.

Lemma fmap_zip_with_right {A B C D} (f : A → B → C) (g : C → D) (h : B → D)
    (l : list A) (k : list B) :
  (∀ x y, g (f x y) = h y) → (length k ≤ length l)%nat →
  g <$> zip_with f l k = h <$> k.
Proof.
  intros Hg. revert k. induction l as [|x l IH]; intros [|y k] Hlen;
    simpl in *; try done; try lia.
  rewrite Hg, IH by lia. done.
Qed.

Lemma length_rolling_mean n xs : length (rolling_mean n xs) = length xs.
Proof. apply length_imap. Qed.

(** The new columns sit on the labels of the frame, one row each. *)
Lemma new_cases_zip (data : Frame Selected) :
  ∃ vals, new_cases data = zip data.*1 vals ∧ length vals = length data
          ∧ vals.*1 = Int64.fillna 0 (Int64.diff (sCumConfirmed ∘ snd <$> data))
          ∧ vals.*2 = Int64.fillna 0 (Int64.diff (sCumDeaths ∘ snd <$> data)).
Proof.
  eexists. split; [done|].
  assert (∀ f : Selected → option Z,
            length (Int64.fillna 0 (Int64.diff (f ∘ snd <$> data))) = length data)
    as Hlen.
  { intros f. by rewrite Int64Facts.length_fillna, Int64Facts.length_diff,
                         length_fmap. }
  split; [|split].
  - rewrite length_zip, !Hlen. lia.
  - apply fst_zip. rewrite !Hlen. lia.
  - apply snd_zip. rewrite !Hlen. lia.
Qed.

(** A column of the result that does not come from the moving averages
    is the same column of the joined frame. *)
Lemma filter_frame_column {X} (g : SeriesRow → X)
    (h : Selected * (option Z * option Z) → X) (d : Table) country state :
  (∀ x sma, g (series_row strftime x sma) = h x) →
  g ∘ snd <$> filter_frame fsum strftime d country state
  = h ∘ snd <$> join (selection fsum d country state)
                     (new_cases (selection fsum d country state)).
Proof.
  intros Hg. unfold filter_frame. cbv zeta.
  apply fmap_zip_with_left.
  - intros x sma. simpl. apply Hg.
  - unfold simple_moving_average.
    rewrite length_zip, !length_rolling_mean, !length_fmap. lia.
Qed.

(** With distinct labels the join is by position. *)
Lemma join_new_cases (data : Frame Selected) :
  NoDup data.*1 →
  (join data (new_cases data)).*2 = zip data.*2 (new_cases data).*2.
Proof.
  intros Hnd. destruct (new_cases_zip data) as (vals & -> & Hlen & _).
  rewrite join_by_position, snd_zip by (rewrite ?length_fmap; lia || done).
  clear Hnd. revert vals Hlen.
  induction data as [|x data IH]; intros [|v vals] Hlen; simpl in *; try done.
  f_equal. apply IH. lia.
Qed.

Lemma NoDup_fmap_filter {X Y} (f : X → Y) (P : X → Prop)
    `{∀ x, Decision (P x)} (l : list X) :
  NoDup (f <$> l) → NoDup (f <$> filter P l).
Proof.
  induction l as [|x l IH]; [done|].
  rewrite fmap_cons, NoDup_cons, filter_cons. intros [Hx Hnd].
  destruct (decide (P x)); [|by apply IH].
  rewrite fmap_cons, NoDup_cons. split; [|by apply IH].
  intros (y & Hy & Hin)%list_elem_of_fmap. apply Hx.
  apply list_elem_of_filter in Hin as [_ Hin].
  rewrite Hy. by apply list_elem_of_fmap_2.
Qed.

Lemma fst_select_state (data : Table) state :
  (select_state data state).*1
  = (filter (λ ir : nat * UnifiedRecord, Province_State ir.2 = Some state) data).*1.
Proof.
  unfold select_state. rewrite <- list_fmap_compose.
  by apply list_fmap_ext.
Qed.

Lemma NoDup_selection_labels (d : Table) country state :
  NoDup d.*1 → NoDup (selection fsum d country state).*1.
Proof.
  intros Hnd. unfold selection. destruct (decide (state = sentinel)).
  - apply NoDup_reset_index.
  - rewrite fst_select_state. unfold select_country.
    by do 2 apply NoDup_fmap_filter.
Qed.

Lemma selection_sentinel_labels (d : Table) country :
  NoDup (selection fsum d country sentinel).*1.
Proof.
  unfold selection. rewrite decide_True by done. apply NoDup_reset_index.
Qed.

(** The rows of the aggregate branch, before the labels are put on. *)
Lemma selection_sentinel_rows (d : Table) country :
  (selection fsum d country sentinel).*2
  = (λ kg : Date * list (nat * UnifiedRecord),
       {| sProvince := None;
          sLat := fsum (Lat ∘ snd <$> kg.2);
          sLong := fsum (Long ∘ snd <$> kg.2);
          sdate := kg.1;
          sCumConfirmed := Some (Int64.sum (CumConfirmed ∘ snd <$> kg.2));
          sCumDeaths := Some (Int64.sum (CumDeaths ∘ snd <$> kg.2)) |})
      <$> groupby Z.le (λ ir : nat * UnifiedRecord, date ir.2)
                  (select_country d country).
Proof.
  unfold selection. rewrite decide_True by done.
  unfold sum_by_date. apply snd_reset_index.
Qed.

(** A column of the result, when the labels of the selection are
    distinct: the same column of the selection and of its new cases. *)
Lemma filter_frame_column_by_position {X} (g : SeriesRow → X)
    (h : Selected * (option Z * option Z) → X) (d : Table) country state :
  (∀ x sma, g (series_row strftime x sma) = h x) →
  NoDup (selection fsum d country state).*1 →
  g ∘ snd <$> filter_frame fsum strftime d country state
  = h <$> zip (selection fsum d country state).*2
              (new_cases (selection fsum d country state)).*2.
Proof.
  intros Hg Hnd. rewrite (filter_frame_column g h) by done.
  rewrite list_fmap_compose. by rewrite join_new_cases.
Qed.

(** Row [S j] of a column of differences after [fillna(0)]. *)
Lemma lookup_fillna_diff_S (l : list (option Z)) j :
  Int64.fillna 0 (Int64.diff l) !! S j =
    match l !! S j, l !! j with
    | Some (Some a), Some (Some b) => Some (Some (Int64.sub a b))
    | Some _, Some _ => Some (Some 0)
    | _, _ => None
    end.
Proof.
  unfold Int64.fillna. rewrite list_lookup_fmap, Int64Facts.lookup_diff_S.
  destruct (l !! S j) as [[a|]|], (l !! j) as [[b|]|]; done.
Qed.

Lemma elem_of_new_cases (data : Frame Selected) y :
  y ∈ new_cases data → is_Some y.2.1 ∧ is_Some y.2.2.
Proof.
  unfold new_cases. destruct y as [i [a b]]. simpl.
  intros Hy%elem_of_zip_r. split.
  - apply elem_of_zip_l in Hy.
    by eapply (proj1 (Forall_forall _ _) (Int64Facts.fillna_is_Some 0 _)).
  - apply elem_of_zip_r in Hy.
    by eapply (proj1 (Forall_forall _ _) (Int64Facts.fillna_is_Some 0 _)).
Qed.

(** The labels of the frame the differences are taken of are distinct
    in the aggregate branch, which renumbers its rows, and in the branch
    of an explicit region whenever the rows of that region have distinct
    labels in the table; the table as a whole may repeat labels, as the
    snapshot of [refresh_data] does across its two parts. *)
Lemma selection_labels_distinct (d : Table) country state :
  state = sentinel
  ∨ NoDup (filter (λ ir : nat * UnifiedRecord,
                     Country ir.2 = country
                     ∧ Province_State ir.2 = Some state) d).*1 →
  NoDup (selection fsum d country state).*1.
Proof.
  intros Hlabels.
  destruct (decide (state = sentinel)) as [->|Hne];
    [apply selection_sentinel_labels|].
  destruct Hlabels as [->|Hnd]; [done|].
  unfold selection. rewrite decide_False by done.
  rewrite fst_select_state. unfold select_country, Frame.
  rewrite list_filter_filter.
  erewrite (list_filter_iff _ (λ ir : nat * UnifiedRecord,
              Country ir.2 = country ∧ Province_State ir.2 = Some state));
    [done|].
  intros ir. tauto.
Qed.

(** C6, as the code has it: [fillna(0)] after [diff()] leaves no new
    value missing.  Every new value of the result is present; in the
    aggregate branch, and in the branch of an explicit region whose rows
    have distinct labels in the table, the new columns are the
    differences of the cumulative columns with every missing
    difference replaced by zero, so a difference whose minuend or
    subtrahend is missing is zero; and the sums of the aggregate branch
    count a missing cell as zero. *)
Theorem new_values_never_missing (d : Table) country state :
  (∀ row, row ∈ filter_frame fsum strftime d country state →
          is_Some (NewConfirmed row.2) ∧ is_Some (NewDeaths row.2))
  ∧ (state = sentinel
     ∨ NoDup (filter (λ ir : nat * UnifiedRecord,
                        Country ir.2 = country
                        ∧ Province_State ir.2 = Some state) d).*1 →
     let out := (filter_frame fsum strftime d country state).*2 in
     NewConfirmed <$> out
       = Int64.fillna 0 (Int64.diff (fCumConfirmed <$> out))
     ∧ NewDeaths <$> out
       = Int64.fillna 0 (Int64.diff (fCumDeaths <$> out)))
  ∧ (∀ (l : list (option Z)) j,
       (S j < length l)%nat → l !! j = Some None ∨ l !! S j = Some None →
       Int64.fillna 0 (Int64.diff l) !! S j = Some (Some 0))
  ∧ (∀ row, row ∈ selection fsum d country sentinel →
       let cells := CumConfirmed ∘ snd <$>
         filter (λ ir : nat * UnifiedRecord, date ir.2 = sdate row.2)
                (select_country d country) in
       sCumConfirmed row.2 = Some (Int64.sum cells)
       ∧ Int64.sum cells = Int64.sum (Int64.fillna 0 cells)).
Proof.
  split; [|split; [|split]].
  - intros row Hrow. unfold filter_frame in Hrow. cbv zeta in Hrow.
    apply elem_of_zip_with in Hrow as (x & sma & -> & Hx & _). simpl.
    apply elem_of_join in Hx as (a & b & _ & Hb & _ & ->). simpl.
    by apply elem_of_new_cases in Hb.
  - intros Hnd out. subst out.
    pose proof (selection_labels_distinct d country state Hnd) as Hl.
    destruct (new_cases_zip (selection fsum d country state))
      as (vals & Hnew & Hlen & Hc & Hd).
    rewrite <- !list_fmap_compose.
    rewrite (filter_frame_column_by_position (NewConfirmed ∘ id) (λ x, x.2.1))
      by done.
    rewrite (filter_frame_column_by_position (NewDeaths ∘ id) (λ x, x.2.2))
      by done.
    rewrite (filter_frame_column_by_position (fCumConfirmed ∘ id)
               (λ x, sCumConfirmed x.1)) by done.
    rewrite (filter_frame_column_by_position (fCumDeaths ∘ id)
               (λ x, sCumDeaths x.1)) by done.
    rewrite Hnew, snd_zip by (rewrite length_fmap; lia).
    assert (length (selection fsum d country state).*2 = length vals) as Hlen'
      by (by rewrite length_fmap).
    rewrite !(list_fmap_compose snd) in Hc, Hd.
    revert Hlen' Hc Hd.
    generalize ((selection fsum d country state).*2). intros sel Hlen' Hc Hd.
    assert (∀ (f : Selected → option Z),
              (λ x : Selected * (option Z * option Z), f x.1) <$> zip sel vals
              = f <$> sel) as Hl1.
    { intros f. apply (fmap_zip_with_left pair); [done|lia]. }
    rewrite !Hl1, <- Hc, <- Hd.
    split.
    + apply (fmap_zip_with_right pair); [done|lia].
    + apply (fmap_zip_with_right pair); [done|lia].
  - intros l j Hj Hmiss. rewrite lookup_fillna_diff_S.
    destruct (lookup_lt_is_Some_2 l (S j) Hj) as [a Ha].
    destruct (lookup_lt_is_Some_2 l j ltac:(lia)) as [b Hb].
    rewrite Ha, Hb. destruct Hmiss as [Hm|Hm].
    + rewrite Hb in Hm. injection Hm as ->. by destruct a.
    + rewrite Ha in Hm. by injection Hm as ->.
  - intros [i row] Hrow cells. subst cells. simpl.
    split; [|by rewrite Int64Facts.sum_fillna].
    assert (row ∈ (selection fsum d country sentinel).*2) as Hin
      by (apply list_elem_of_fmap; by exists (i, row)).
    rewrite selection_sentinel_rows in Hin.
    apply list_elem_of_fmap in Hin as (kg & -> & Hkg).
    apply elem_of_groupby in Hkg as [_ ->]. done.
Qed.

Lemma selection_sentinel_dates (d : Table) country :
  sdate <$> (selection fsum d country sentinel).*2
  = (groupby Z.le (λ ir : nat * UnifiedRecord, date ir.2)
             (select_country d country)).*1.
Proof.
  rewrite selection_sentinel_rows, <- list_fmap_compose.
  by apply list_fmap_ext.
Qed.

(** C8, as the code has it: the aggregate branch takes the differences
    of rows in strictly ascending date order, one row per date, and
    returns them in that order; the branch of an explicit region sorts
    nothing and takes the differences of the region's rows in the order
    they have in the table; with distinct labels in the table, that is
    also the order of the rows returned. *)
Theorem selection_date_order (d : Table) country state :
  StronglySorted Z.lt (sdate <$> (selection fsum d country sentinel).*2)
  ∧ fdate <$> (filter_frame fsum strftime d country sentinel).*2
    = sdate <$> (selection fsum d country sentinel).*2
  ∧ (state ≠ sentinel →
     sdate <$> (selection fsum d country state).*2
     = date <$> (filter (λ ir : nat * UnifiedRecord,
                           Country ir.2 = country
                           ∧ Province_State ir.2 = Some state) d).*2)
  ∧ (NoDup d.*1 →
     fdate <$> (filter_frame fsum strftime d country state).*2
     = sdate <$> (selection fsum d country state).*2).
Proof.
  assert (∀ st, NoDup (selection fsum d country st).*1 →
            fdate <$> (filter_frame fsum strftime d country st).*2
            = sdate <$> (selection fsum d country st).*2) as Hout.
  { intros st Hl. rewrite <- list_fmap_compose.
    rewrite (filter_frame_column_by_position (fdate ∘ id) (λ x, sdate x.1))
      by done.
    destruct (new_cases_zip (selection fsum d country st))
      as (vals & -> & Hlen & _).
    rewrite snd_zip by (rewrite length_fmap; lia).
    apply (fmap_zip_with_left pair); [done|].
    rewrite length_fmap. lia. }
  split; [|split; [|split]]; cycle 3.
  { intros Hnd. by apply Hout, NoDup_selection_labels. }
  - rewrite selection_sentinel_dates. apply groupby_dates_sorted.
  - apply Hout, selection_sentinel_labels.
  - intros Hne. unfold selection. rewrite decide_False by done.
    unfold select_state, select_country.
    unfold Frame. rewrite list_filter_filter, <- !list_fmap_compose.
    erewrite (list_filter_iff _ (λ ir : nat * UnifiedRecord,
                Country ir.2 = country ∧ Province_State ir.2 = Some state));
      [by apply list_fmap_ext|].
    intros ir. tauto.
Qed.

(** C10: asked for the aggregate sentinel, the query returns for a date
    on which the country has rows exactly one row, whose cumulative
    counts are the 64-bit sums over all the country's rows of that date,
    aggregate rows and province rows alike; when the aggregate rows
    already total the province rows, that is twice the total. *)
Theorem aggregate_query_adds_all_rows (d : Table) country dt :
  let rows := (filter (λ ir : nat * UnifiedRecord,
                         Country ir.2 = country ∧ date ir.2 = dt) d).*2 in
  let agg := filter (λ r, Province_State r = Some sentinel) rows in
  let prov := filter (λ r, Province_State r ≠ Some sentinel) rows in
  rows ≠ [] →
  ∃ row,
    filter (λ r, fdate r = dt)
           (filter_frame fsum strftime d country sentinel).*2 = [row]
    ∧ fCumConfirmed row
      = Some (Int64.wrap (Int64.total (CumConfirmed <$> agg)
                          + Int64.total (CumConfirmed <$> prov)))
    ∧ fCumDeaths row
      = Some (Int64.wrap (Int64.total (CumDeaths <$> agg)
                          + Int64.total (CumDeaths <$> prov)))
    ∧ (∀ T, Int64.total (CumConfirmed <$> agg) = T →
            Int64.total (CumConfirmed <$> prov) = T →
            - 2 ^ 63 ≤ 2 * T < 2 ^ 63 →
            fCumConfirmed row = Some (2 * T)).
Proof.
  intros rows agg prov Hrows.
  set (xs := (filter_frame fsum strftime d country sentinel).*2).
  set (grp := groupby Z.le (λ ir : nat * UnifiedRecord, date ir.2)
                      (select_country d country)).
  assert (rows = (filter (λ ir : nat * UnifiedRecord, date ir.2 = dt)
                         (select_country d country)).*2) as Hrows_eq.
  { unfold rows, select_country, Frame. rewrite list_filter_filter.
    f_equal. apply list_filter_iff. intros ir. tauto. }
  assert ((λ r : SeriesRow, (fdate r, fCumConfirmed r, fCumDeaths r)) <$> xs
          = (λ kg : Date * list (nat * UnifiedRecord),
               (kg.1, Some (Int64.sum (CumConfirmed ∘ snd <$> kg.2)),
                Some (Int64.sum (CumDeaths ∘ snd <$> kg.2)))) <$> grp)
    as Htriples.
  { unfold xs. rewrite <- list_fmap_compose.
    rewrite (filter_frame_column_by_position
               ((λ r : SeriesRow, (fdate r, fCumConfirmed r, fCumDeaths r)) ∘ id)
               (λ x, (sdate x.1, sCumConfirmed x.1, sCumDeaths x.1)));
      [|done|apply selection_sentinel_labels].
    destruct (new_cases_zip (selection fsum d country sentinel))
      as (vals & -> & Hlen & _).
    rewrite snd_zip by (rewrite length_fmap; lia).
    rewrite (fmap_zip_with_left pair _
               (λ s : Selected, (sdate s, sCumConfirmed s, sCumDeaths s)));
      [|done|rewrite length_fmap; lia].
    rewrite selection_sentinel_rows, <- list_fmap_compose.
    by apply list_fmap_ext. }
  assert (fdate <$> xs = grp.*1) as Hdates.
  { apply (f_equal (fmap (λ t : Date * option Z * option Z, t.1.1))) in Htriples.
    rewrite <- !list_fmap_compose in Htriples.
    etrans; [|etrans; [exact Htriples|]]; by apply list_fmap_ext. }
  assert (dt ∈ fdate <$> xs) as Hdt.
  { rewrite Hdates. apply elem_of_groupby_keys.
    destruct rows as [|r rows'] eqn:Hr; [done|].
    assert (r ∈ (filter (λ ir : nat * UnifiedRecord, date ir.2 = dt)
                        (select_country d country)).*2) as Hin
      by (rewrite <- Hrows_eq; left).
    apply list_elem_of_fmap in Hin as (ir & -> & Hir).
    apply list_elem_of_filter in Hir as [Hd Hir].
    apply list_elem_of_fmap. by exists ir. }
  apply list_elem_of_fmap in Hdt as (row & Hrow_dt & Hrow).
  exists row.
  assert (fCumConfirmed row = Some (Int64.sum (CumConfirmed <$> rows))
          ∧ fCumDeaths row = Some (Int64.sum (CumDeaths <$> rows)))
    as [Hconf Hdeaths].
  { assert ((fdate row, fCumConfirmed row, fCumDeaths row)
            ∈ (λ r : SeriesRow, (fdate r, fCumConfirmed r, fCumDeaths r)) <$> xs)
      as Hin by (apply list_elem_of_fmap; by exists row).
    rewrite Htriples in Hin.
    apply list_elem_of_fmap in Hin as (kg & Heq & Hkg).
    apply elem_of_groupby in Hkg as [_ Hg].
    injection Heq as Hk -> ->. rewrite Hg, <- Hk, <- Hrow_dt.
    by rewrite Hrows_eq, <- !list_fmap_compose. }
  assert (∀ f : UnifiedRecord → option Z,
            Int64.sum (f <$> rows)
            = Int64.wrap (Int64.total (f <$> agg) + Int64.total (f <$> prov)))
    as Hsplit.
  { intros f. rewrite Int64Facts.sum_total.
    by rewrite (Int64Facts.total_filter_split f
                  (λ r, Province_State r = Some sentinel) rows). }
  split; [|split; [|split]].
  - rewrite Hrow_dt.
    apply (filter_key_singleton fdate xs row); [|done].
    rewrite Hdates. apply NoDup_groupby_keys.
  - by rewrite Hconf, Hsplit.
  - by rewrite Hdeaths, Hsplit.
  - intros T Ha Hp HT. rewrite Hconf, Hsplit, Ha, Hp. f_equal.
    rewrite Int64Facts.wrap_small; lia.
Qed.

(** C1: the scenario of the design document.  One country with the
    aggregate sentinel, eight consecutive days from 1 January 2020 (day
    18262 of the epoch), cumulative confirmed counts 1, 1, 2, 4, 7, 11,
    16, 22; whatever the coordinates and the deaths column are. *)
Theorem testland_query (lat long : Date → Coord) (deaths : Date → option Z) :
  let table : Table :=
    reset_index
      (zip_with (λ dt c, {| Country := "Testland";
                            Province_State := Some sentinel;
                            Lat := lat dt; Long := long dt; date := dt;
                            CumConfirmed := Some c;
                            CumDeaths := deaths dt |})
                [18262; 18263; 18264; 18265; 18266; 18267; 18268; 18269]
                [1; 1; 2; 4; 7; 11; 16; 22]) in
  let out := (filter_frame fsum strftime table "Testland" sentinel).*2 in
  NewConfirmed <$> out
    = [Some 0; Some 0; Some 1; Some 2; Some 3; Some 4; Some 5; Some 6]
  ∧ NewConfirmedSMA7 <$> out
    = [None; None; None; None; None; None; Some (15 # 7)%Q; Some (21 # 7)%Q].
Proof. intros table out. split; vm_compute; reflexivity. Qed.

End QueryFacts.

(** ** The options of the region dropdown: [update_states] *)

Section StatesFacts.

Context {Coord : Type} `{EqDecision Coord}.

Abbreviation Table := (Frame (@UnifiedRecord Coord)).

Lemma sort_states_names (states : list (option string)) sorted :
  sort_states states = inr sorted →
  ∃ names, states = Some <$> names ∧ sorted = merge_sort string_le names.
Proof.
  unfold sort_states. destruct (mapM id states) as [names|] eqn:Hm; [|done].
  intros [= <-]. exists names. split; [|done].
  apply mapM_Some in Hm. clear -Hm.
  induction Hm as [|x y l k Hxy _ IH]; [done|].
  simpl in Hxy. by rewrite fmap_cons, <- IH, Hxy.
Qed.

(** Whenever the country has a row that carries the sentinel, the
    options [update_states] returns list the sentinel twice. *)
Lemma states_of_repeats_sentinel (d : Table) country opts v :
  (∃ ir, ir ∈ d ∧ Country ir.2 = country
         ∧ Province_State ir.2 = Some sentinel) →
  states_of d country = inr (opts, v) →
  length (filter (λ o, o = (sentinel, sentinel)) opts) = 2%nat.
Proof.
  intros (ir & Hir & Hc & Hp). unfold states_of.
  set (U := unique _).
  assert (Some sentinel ∈ U) as HU.
  { unfold U. apply elem_of_unique, list_elem_of_fmap. exists ir.
    split; [done|]. by apply list_elem_of_filter. }
  assert (NoDup U) as Hnd by apply NoDup_unique.
  destruct (sort_states (Some sentinel :: U)) as [e|sorted] eqn:Hs; [done|].
  apply sort_states_names in Hs as (names & Hnames & ->).
  destruct names as [|n names]; [done|].
  rewrite fmap_cons in Hnames. injection Hnames as <- HU'.
  rewrite HU' in HU, Hnd. clear U HU'.
  apply NoDup_fmap_1 in Hnd.
  apply list_elem_of_fmap in HU as (s & [= <-] & Hin).
  destruct (_ <$> merge_sort _ _) as [|o os] eqn:Hopts; [done|].
  intros [= <- _]. rewrite <- Hopts. clear Hopts o os.
  rewrite filter_fmap, length_fmap.
  rewrite (list_filter_iff _ (λ s : string, s = sentinel))
    by (intros s; split; [by intros [= ->]|by intros ->]).
  rewrite merge_sort_Permutation.
  rewrite filter_cons, decide_True by done. simpl. f_equal.
  rewrite (filter_key_singleton id names sentinel); [done| |done].
  by rewrite list_fmap_id.
Qed.

End StatesFacts.

(** ** The pipeline on the concrete tables *)

Section Scenarios.

Import Examples.

Local Ltac compute_fact := apply (bool_decide_unpack _); vm_compute; exact I.

(** C3, against the claim as written: a confirmed and a death record
    agree on (Country, Province/State, date) and the merge is empty,
    because their latitudes differ; and two inputs of two rows each
    merge into four rows, more than the shorter input has. *)
Lemma merge_not_on_three_columns :
  (∃ a b, a ∈ confirmed_moved ∧ b ∈ deaths_moved
          ∧ (mCountry a, mProvince a, mdate a)
            = (mCountry b, mProvince b, mdate b))
  ∧ merge confirmed_moved deaths_moved = []
  ∧ (length confirmed_twice `min` length deaths_twice
     < length (merge confirmed_twice deaths_twice))%nat.
Proof.
  split; [|split; [reflexivity|vm_compute; lia]].
  eexists _, _. split; [left|]. split; [left|]. reflexivity.
Qed.

Lemma merge_inner_join_witness :
  (length (merge confirmed_aligned deaths_aligned)
   ≤ length confirmed_aligned `min` length deaths_aligned)%nat
  ∧ length (merge confirmed_aligned deaths_aligned) = length confirmed_aligned
  ∧ length (merge confirmed_aligned deaths_aligned) = length deaths_aligned.
Proof.
  destruct (merge_inner_join confirmed_aligned deaths_aligned) as [_ Hlen].
  destruct Hlen as [Hle Heq]; [compute_fact|compute_fact|].
  split; [exact Hle|]. apply Heq.
  intros k. cbn. rewrite !elem_of_cons, !elem_of_nil. tauto.
Defined.

Lemma all_data_uses_cache_witness :
  pickle fresh_world = None
  ∧ run (all_data zmedian) fresh_world =
      match run (refresh_data zmedian) fresh_world with
      | (inr t, w') => (inr t, log w' EvReadPickle)
      | (inl e, w') => (inl e, w')
      end.
Proof.
  split; [reflexivity|].
  apply (proj1 (all_data_uses_cache zmedian fresh_world)). reflexivity.
Defined.

(** The first load of the four files returns the unified table after
    four fetches, one write and one read; the load after it returns the
    same table after one more read. *)
Example first_and_second_load :
  ∃ w1 w2,
    run (all_data zmedian) fresh_world = (inr unified, w1)
    ∧ trace w1 = (EvFetch <$> resources) ++ [EvWritePickle; EvReadPickle]
    ∧ run (all_data zmedian) w1 = (inr unified, w2)
    ∧ trace w2 = trace w1 ++ [EvReadPickle].
Proof. eexists _, _. repeat split; vm_compute; reflexivity. Qed.

Lemma global_frame_per_date_witness :
  ∃ agg,
    filter (λ r, mCountry r = "China" ∧ mdate r = 18262)
           (global_frame zmedian days (csv_rows confirmed_global))
    = agg :: filter (λ r, mCountry r = "China" ∧ mdate r = 18262)
                    (melt days (csv_rows confirmed_global))
    ∧ mProvince agg = Some sentinel
    ∧ mvalue agg = Some 11.
Proof.
  destruct (global_frame_per_date zmedian days (csv_rows confirmed_global)
              "China" 18262) as (agg & Hrows & Hp & Hv & _);
    [compute_fact|compute_fact|].
  exists agg. split; [exact Hrows|]. split; [exact Hp|exact Hv].
Defined.

(** C6, against the claim as written: the cumulative column of the
    region is 1, missing, 3, and every new value is 0: the two
    differences that involve the missing cell are zero, not missing. *)
Lemma gap_difference_is_zero :
  let out := (filter_frame zsum day_label gapland "Gapland" "North").*2 in
  fCumConfirmed <$> out = [Some 1; None; Some 3]
  ∧ NewConfirmed <$> out = [Some 0; Some 0; Some 0].
Proof. split; reflexivity. Qed.

Lemma new_values_never_missing_witness :
  let out := (filter_frame zsum day_label gap_snapshot "Gapland" "North").*2 in
  NewConfirmed <$> out = Int64.fillna 0 (Int64.diff (fCumConfirmed <$> out))
  ∧ NewDeaths <$> out = Int64.fillna 0 (Int64.diff (fCumDeaths <$> out)).
Proof.
  apply (proj1 (proj2 (new_values_never_missing zsum day_label gap_snapshot
                         "Gapland" "North"))).
  right. compute_fact.
Defined.

(** On the snapshot of two parts the labels of the table repeat, the
    labels of the region do not, and the new values next to the missing
    cell are zero. *)
Example gap_in_snapshot_of_two_parts :
  ¬ NoDup gap_snapshot.*1
  ∧ (λ r, (fCumConfirmed r, NewConfirmed r))
      <$> (filter_frame zsum day_label gap_snapshot "Gapland" "North").*2
    = [(Some 1, Some 0); (None, Some 0); (Some 3, Some 0)].
Proof.
  split; [|reflexivity].
  intros Hnd. revert Hnd. apply (bool_decide_unpack _). vm_compute. exact I.
Qed.

Lemma refresh_failure_keeps_snapshot_witness :
  ∃ w', run (refresh_data zmedian) stale_world = (inl FetchError, w')
        ∧ pickle w' = Some testland
        ∧ ∃ evs, trace w' = trace stale_world ++ evs ∧ EvWritePickle ∉ evs.
Proof.
  eexists. split; [reflexivity|].
  eapply (refresh_failure_keeps_snapshot zmedian stale_world (inl FetchError)).
  reflexivity.
Defined.

(** C8, against the claim as written: the rows of the region stand in
    the table with the later date first, and that is the order in which
    the differences are taken: the second row gets 2 - 5. *)
Lemma explicit_region_not_sorted :
  sdate <$> (selection zsum shuffled "Mixland" "East").*2 = [18263; 18262]
  ∧ ¬ Sorted Z.le (sdate <$> (selection zsum shuffled "Mixland" "East").*2)
  ∧ (λ r, (fdate r, NewConfirmed r))
      <$> (filter_frame zsum day_label shuffled "Mixland" "East").*2
    = [(18263, Some 0); (18262, Some (-3))].
Proof.
  split; [reflexivity|]. split; [|reflexivity].
  change (sdate <$> _) with [18263; 18262].
  intros Hs. inversion Hs as [|? ? _ Hhd]. inversion Hhd. lia.
Qed.

Lemma selection_date_order_witness :
  sdate <$> (selection zsum shuffled "Mixland" "East").*2
  = date <$> (filter (λ ir, Country ir.2 = "Mixland"
                            ∧ Province_State ir.2 = Some "East") shuffled).*2.
Proof.
  apply (proj1 (proj2 (proj2 (selection_date_order zsum day_label shuffled
                                "Mixland" "East")))).
  discriminate.
Defined.

Lemma aggregate_query_adds_all_rows_witness :
  ∃ row,
    filter (λ r, fdate r = 18262)
           (filter_frame zsum day_label unified "China" sentinel).*2 = [row]
    ∧ fCumConfirmed row = Some 22.
Proof.
  destruct (aggregate_query_adds_all_rows zsum day_label unified "China" 18262)
    as (row & Hrow & _ & _ & Htwice); [by vm_compute|].
  exists row. split; [exact Hrow|].
  apply (Htwice 11); [reflexivity|reflexivity|lia].
Defined.

(** The same for the US, whose total comes once with the global file
    and once more as the sum of the states of the US file. *)
Example us_counted_twice :
  (λ r, (fdate r, fCumConfirmed r))
    <$> (filter_frame zsum day_label unified "US" sentinel).*2
  = [(18262, Some 8); (18263, Some 16)]
  ∧ (λ r, (Province_State r, date r, CumConfirmed r))
      <$> (filter (λ ir, Country ir.2 = "US" ∧ date ir.2 = 18262) unified).*2
    = [(Some sentinel, 18262, Some 4); (Some "Alabama", 18262, Some 2);
       (Some "Alaska", 18262, Some 2)].
Proof. split; reflexivity. Qed.

(** C5, at the table of a country that has aggregate rows only: the
    dropdown gets the sentinel twice. *)
Theorem update_states_lists_sentinel_twice :
  (run (update_states zmedian "Testland") cached_world).1
  = inr ([(sentinel, sentinel); (sentinel, sentinel)], sentinel).
Proof. reflexivity. Qed.

(** The same on the table the four files make, for a country with
    provinces. *)
Example update_states_china :
  states_of unified "China"
  = inr ([(sentinel, sentinel); (sentinel, sentinel);
          ("Beijing", "Beijing"); ("Hubei", "Hubei")], sentinel).
Proof. reflexivity. Qed.

(** Sorting puts the sentinel behind a region whose name starts with a
    character below [<], and the selected value is that region. *)
Example update_states_sentinel_not_first :
  states_of lowland "Lowland"
  = inr ([("(unassigned)", "(unassigned)"); (sentinel, sentinel)],
         "(unassigned)").
Proof. reflexivity. Qed.

End Scenarios.

(** ** The order of region and country names *)

Section StringOrder.

Lemma string_compare_refl s : String.compare s s = Eq.
Proof.
  pose proof (String.compare_antisym s s) as H.
  by destruct (String.compare s s).
Qed.

Lemma ascii_compare_refl a : Ascii.compare a a = Eq.
Proof. apply N.compare_refl. Qed.

Lemma ascii_compare_lt_trans a b c :
  Ascii.compare a b = Lt → Ascii.compare b c = Lt → Ascii.compare a c = Lt.
Proof.
  unfold Ascii.compare. rewrite !N.compare_lt_iff. apply N.lt_trans.
Qed.

Lemma string_compare_lt_trans s1 s2 s3 :
  String.compare s1 s2 = Lt → String.compare s2 s3 = Lt →
  String.compare s1 s3 = Lt.
Proof.
  revert s2 s3. induction s1 as [|a s1 IH]; intros [|b s2] [|c s3];
    simpl; try done.
  destruct (Ascii.compare a b) eqn:Hab; try done;
    destruct (Ascii.compare b c) eqn:Hbc; try done.
  - apply Ascii.compare_eq_iff in Hab as ->, Hbc as ->.
    rewrite ascii_compare_refl. apply IH.
  - apply Ascii.compare_eq_iff in Hab as ->. by rewrite Hbc.
  - apply Ascii.compare_eq_iff in Hbc as <-. by rewrite Hab.
  - by rewrite (ascii_compare_lt_trans a b c).
Qed.

Global Instance string_le_total : Total string_le.
Proof. intros s1 s2. apply String.leb_total. Qed.

Global Instance string_le_trans : Transitive string_le.
Proof.
  intros s1 s2 s3. unfold string_le, String.leb.
  destruct (String.compare s1 s2) eqn:H12; [| |done];
    destruct (String.compare s2 s3) eqn:H23; try done; intros _ _.
  - apply String.compare_eq_iff in H12 as ->. by rewrite H23.
  - apply String.compare_eq_iff in H12 as ->. by rewrite H23.
  - apply String.compare_eq_iff in H23 as <-. by rewrite H12.
  - by rewrite (string_compare_lt_trans s1 s2 s3).
Qed.

Global Instance string_le_antisym : AntiSymm (=) string_le.
Proof. intros s1 s2. apply String.leb_antisym. Qed.

(** What [list.sort()] makes of a list of names. *)
Lemma sorted_names (names : list string) :
  StronglySorted string_le (merge_sort string_le names)
  ∧ ∀ s, s ∈ merge_sort string_le names ↔ s ∈ names.
Proof.
  split; [apply StronglySorted_merge_sort; apply _|].
  intros s. by rewrite merge_sort_Permutation.
Qed.

End StringOrder.

(** ** More on the region dropdown and the country list *)

Section DropdownFacts.

Context {Coord : Type} `{EqDecision Coord}.
Variable median : list Coord → Coord.

Abbreviation Table := (Frame (@UnifiedRecord Coord)).
Abbreviation World := (@World Coord).

(** The provinces [update_states] collects for a country. *)
Lemma elem_of_country_states (d : Table) country p :
  p ∈ unique (Province_State ∘ snd
              <$> filter (λ ir : nat * UnifiedRecord, Country ir.2 = country) d)
  ↔ ∃ ir, ir ∈ d ∧ Country ir.2 = country ∧ Province_State ir.2 = p.
Proof.
  rewrite elem_of_unique, list_elem_of_fmap. split.
  - intros (ir & -> & Hir). apply list_elem_of_filter in Hir as [Hc Hir].
    by exists ir.
  - intros (ir & Hir & Hc & <-). exists ir. split; [done|].
    by apply list_elem_of_filter.
Qed.

(** On a loaded table, the body of [update_states] raises [TypeError],
    and nothing else, exactly when a row of the country has no
    Province/State: the missing value cannot be compared with the
    strings when the list is sorted. *)
Theorem states_of_type_error (d : Table) country :
  (states_of d country = inl TypeError ↔
   ∃ ir, ir ∈ d ∧ Country ir.2 = country ∧ Province_State ir.2 = None)
  ∧ (∀ e, states_of d country = inl e → e = TypeError).
Proof.
  unfold states_of, sort_states.
  set (U := unique _).
  destruct (mapM id (Some sentinel :: U)) as [names|] eqn:Hm.
  - assert (names ≠ []) as Hne.
    { apply length_mapM in Hm. by destruct names. }
    destruct (merge_sort string_le names) as [|n ns] eqn:Hs.
    { exfalso. apply Hne. apply Permutation_nil_r.
      by rewrite <- (merge_sort_Permutation string_le names), Hs. }
    simpl. split; [|done]. split; [done|].
    intros Hmiss. apply elem_of_country_states in Hmiss. fold U in Hmiss.
    apply mapM_Some in Hm. exfalso.
    apply Forall2_cons_inv_l in Hm as (y & k & _ & Hm & _).
    clear -Hmiss Hm. induction Hm as [|x z l k' Hxz _ IH]; [by inversion Hmiss|].
    apply elem_of_cons in Hmiss as [<-|Hmiss]; [done|by apply IH].
  - split; [|by intros e [= <-]]. split; [|done]. intros _.
    apply elem_of_country_states. fold U.
    apply mapM_None in Hm. apply Exists_cons in Hm as [Hm|Hm]; [done|].
    apply Exists_exists in Hm as (x & Hx & Hnone). simpl in Hnone. by subst.
Qed.

(** X2: when [update_states] returns, every option has its value as
    label, the values are in ascending order of their code points, they
    are the sentinel and the regions of the country's rows, and the
    selected value is the first, the least of them. *)
Theorem states_of_sorted_options (d : Table) country opts v :
  states_of d country = inr (opts, v) →
  opts.*1 = opts.*2
  ∧ StronglySorted string_le opts.*2
  ∧ (∀ s, s ∈ opts.*2 ↔
          s = sentinel
          ∨ ∃ ir, ir ∈ d ∧ Country ir.2 = country
                  ∧ Province_State ir.2 = Some s)
  ∧ head opts.*2 = Some v
  ∧ (∀ s, s ∈ opts.*2 → string_le v s).
Proof.
  unfold states_of.
  set (U := unique _).
  destruct (sort_states (Some sentinel :: U)) as [e|sorted] eqn:Hs; [done|].
  apply sort_states_names in Hs as (names & Hnames & ->).
  destruct (_ <$> merge_sort _ _) as [|o os] eqn:Hopts; [done|].
  intros [= <- <-]. rewrite <- Hopts.
  assert (((λ s : string, (s, s)) <$> merge_sort string_le names).*2
          = merge_sort string_le names) as H2.
  { rewrite <- list_fmap_compose. apply list_fmap_id. }
  assert (((λ s : string, (s, s)) <$> merge_sort string_le names).*1
          = merge_sort string_le names) as H1.
  { rewrite <- list_fmap_compose. apply list_fmap_id. }
  rewrite H1, H2.
  destruct (sorted_names names) as [Hsorted Hmem].
  assert (head (merge_sort string_le names) = Some o.2) as Hhead.
  { apply (f_equal (fmap snd)) in Hopts. rewrite H2 in Hopts.
    by rewrite Hopts. }
  split; [done|]. split; [done|]. split; [|split; [done|]].
  - intros s. rewrite Hmem.
    destruct names as [|n names]; [done|].
    rewrite fmap_cons in Hnames. injection Hnames as <- HU.
    rewrite elem_of_cons. apply or_iff_compat_l.
    rewrite <- (elem_of_country_states d country (Some s)). fold U.
    rewrite HU. split; [apply list_elem_of_fmap_2|].
    by intros (s' & [= <-] & ?)%list_elem_of_fmap.
  - intros s Hin. apply head_Some in Hhead as [l' Hl'].
    rewrite Hl' in Hsorted, Hin.
    apply StronglySorted_inv in Hsorted as [_ Hall].
    apply elem_of_cons in Hin as [->|Hin].
    + unfold string_le, String.leb. by rewrite string_compare_refl.
    + by eapply (proj1 (Forall_forall _ _) Hall).
Qed.

End DropdownFacts.

(** ** More on the cache and the callbacks *)

Section CallbackFacts.

Context {Coord : Type} `{EqDecision Coord}.
Variable median : list Coord → Coord.
Variable fsum : list Coord → Coord.
Variable strftime : Date → string.

Abbreviation World := (@World Coord).
Abbreviation Table := (Frame (@UnifiedRecord Coord)).


Lemma all_data_returns_snapshot (w : World) t w1 :
  run (all_data median) w = (inr t, w1) → pickle w1 = Some t.
Proof.
  rewrite run_all_data. destruct (pickle w) as [t0|] eqn:Hp.
  - rewrite run_read_pickle, Hp. by intros [= <- <-].
  - destruct (run (refresh_data median) w) as [[e|t1] w'] eqn:Hr; [done|].
    apply refresh_data_run in Hr as [_ [Hp' _]].
    rewrite run_read_pickle, Hp'. by intros [= <- <-].
Qed.

Lemma run_countries (w : World) :
  run (countries median) w =
    match run (all_data median) w with
    | (inr d, w') =>
        (inr (merge_sort string_le (unique (Country ∘ snd <$> d))), w')
    | (inl e, w') => (inl e, w')
    end.
Proof. unfold countries. rewrite run_bind. by destruct (run _ w) as [[?|?] ?]. Qed.

Lemma run_filtered_data (w : World) country state :
  run (filtered_data median fsum strftime country state) w =
    match run (all_data median) w with
    | (inr d, w') => (inr (filter_frame fsum strftime d country state), w')
    | (inl e, w') => (inl e, w')
    end.
Proof.
  unfold filtered_data. rewrite run_bind. by destruct (run _ w) as [[?|?] ?].
Qed.


(** X4: the country list is read from the loaded snapshot: it is in
    ascending order of code points, has no country twice, and has
    exactly the countries of the rows of the snapshot. *)
Theorem countries_sorted_distinct (w : World) cs w' :
  run (countries median) w = (inr cs, w') →
  ∃ d : Table,
    pickle w' = Some d
    ∧ StronglySorted string_le cs
    ∧ NoDup cs
    ∧ (∀ c, c ∈ cs ↔ ∃ ir, ir ∈ d ∧ Country ir.2 = c).
Proof.
  rewrite run_countries.
  destruct (run (all_data median) w) as [[e|d] w1] eqn:Hr; [done|].
  intros [= <- <-]. exists d.
  split; [by eapply all_data_returns_snapshot|].
  split; [apply StronglySorted_merge_sort; apply _|].
  split; [rewrite merge_sort_Permutation; apply NoDup_unique|].
  intros c. rewrite merge_sort_Permutation, elem_of_unique, list_elem_of_fmap.
  split; [intros (ir & -> & ?)|intros (ir & ? & <-)]; by exists ir.
Qed.

(** X5: every call of [update_plots] runs [refresh_data] first, with or
    without a snapshot on disk: when the refresh raises, the callback
    raises the same error and draws nothing; when it returns, both
    figures are drawn from the table just fetched. *)
Theorem update_plots_refreshes (w : World) country state metrics n :
  run (update_plots median fsum strftime country state metrics n) w =
    match run (refresh_data median) w with
    | (inl e, w') => (inl e, w')
    | (inr t, w') =>
        let data := filter_frame fsum strftime t country state in
        (match barchart data metrics "New" "New Cases per Day",
               barchart data metrics "Cum" "Cumulated Cases" with
         | inr barchart_new, inr barchart_cum =>
             inr (barchart_new, barchart_cum)
         | inl e, _ => inl e
         | _, inl e => inl e
         end, log w' EvReadPickle)
    end.
Proof.
  unfold update_plots. rewrite run_bind.
  destruct (run (refresh_data median) w) as [[e|t] w'] eqn:Hr; [done|].
  apply refresh_data_run in Hr as [_ [Hp _]].
  rewrite run_bind, run_filtered_data.
  rewrite run_all_data, Hp, run_read_pickle, Hp. cbv zeta.
  by destruct (barchart (filter_frame fsum strftime t country state)
                        metrics "New" "New Cases per Day"),
              (barchart (filter_frame fsum strftime t country state)
                        metrics "Cum" "Cumulated Cases").
Qed.

End CallbackFacts.

(** ** More on differences and moving averages *)

Section SeriesFacts.

Import Int64.

(** The new values of a column without missing cells. *)
Lemma lookup_new_present (zs : list Z) j a b :
  zs !! j = Some a → zs !! S j = Some b →
  fillna 0 (diff (Some <$> zs)) !! S j = Some (Some (sub b a)).
Proof.
  intros Ha Hb. unfold fillna.
  rewrite list_lookup_fmap, Int64Facts.lookup_diff_S, !list_lookup_fmap.
  by rewrite Ha, Hb.
Qed.

Lemma total_snoc l x : total (l ++ [Some x]) = total l + x.
Proof. rewrite Int64Facts.total_app. simpl. lia. Qed.

Lemma new_range_step (zs : list Z) i j b :
  (i ≤ j)%nat → zs !! S j = Some b →
  ∃ a, zs !! j = Some a ∧
       drop (S i) (take (S (S j)) (fillna 0 (diff (Some <$> zs))))
       = drop (S i) (take (S j) (fillna 0 (diff (Some <$> zs))))
         ++ [Some (sub b a)].
Proof.
  intros Hij Hb.
  destruct (lookup_lt_is_Some_2 zs j) as [a Ha].
  { apply lookup_lt_Some in Hb. lia. }
  exists a. split; [done|].
  rewrite (take_S_r _ _ _ (lookup_new_present zs j a b Ha Hb)).
  rewrite drop_app_le; [done|].
  rewrite length_take, Int64Facts.length_fillna, Int64Facts.length_diff,
    length_fmap.
  apply lookup_lt_Some in Hb. lia.
Qed.

(** X6: the new values add up to the change of the cumulative column.
    For a column without missing cells and rows [i ≤ j], the sum of the
    new values of rows [i+1 .. j] equals [cum j - cum i] modulo 2^64, and
    equals it exactly when the cumulative values are non-negative 64-bit
    numbers. *)
Theorem new_values_telescope (zs : list Z) i j a b :
  (i ≤ j)%nat → zs !! i = Some a → zs !! j = Some b →
  let new := fillna 0 (diff (Some <$> zs)) in
  wrap (total (drop (S i) (take (S j) new))) = wrap (b - a)
  ∧ (Forall (λ z, 0 ≤ z < 2 ^ 63) zs →
     total (drop (S i) (take (S j) new)) = b - a).
Proof.
  intros Hij Ha Hb new. subst new. revert b Hb.
  induction Hij as [|j Hij IH]; intros b Hb.
  - assert (a = b) as -> by congruence.
    rewrite drop_ge.
    2:{ rewrite length_take. lia. }
    simpl. rewrite Z.sub_diag. split; [done|]. done.
  - destruct (new_range_step zs i j b Hij Hb) as (c & Hc & ->).
    destruct (IH c Hc) as [IHw IHe].
    rewrite total_snoc. split.
    + unfold sub. rewrite Z.add_comm, Int64Facts.wrap_add_l, Z.add_comm.
      rewrite <- Int64Facts.wrap_add_l, IHw, Int64Facts.wrap_add_l.
      f_equal. lia.
    + intros Hall. rewrite (IHe Hall).
      pose proof (proj1 (Forall_lookup _ _) Hall _ _ Hc) as Hc'.
      pose proof (proj1 (Forall_lookup _ _) Hall _ _ Hb) as Hb'.
      cbv beta in Hc', Hb'.
      unfold sub. rewrite Int64Facts.wrap_small; lia.
Qed.

Lemma lookup_rolling_mean n (xs : list (option Z)) i :
  (i < length xs)%nat →
  rolling_mean n xs !! i
  = Some (window_mean n (drop (S i - n) (take (S i) xs))).
Proof.
  intros Hi. unfold rolling_mean. rewrite list_lookup_imap.
  by destruct (lookup_lt_is_Some_2 xs i Hi) as [x ->].
Qed.

Lemma length_window n (xs : list (option Z)) i :
  (i < length xs)%nat →
  length (drop (S i - n) (take (S i) xs)) = (S i `min` n)%nat.
Proof. intros Hi. rewrite length_drop, length_take. lia. Qed.

Lemma window_all_present n (xs : list (option Z)) i :
  Forall is_Some xs → Forall is_Some (drop (S i - n) (take (S i) xs)).
Proof. intros Hall. by apply Forall_drop, Forall_take. Qed.

(** Row [i] of the moving average of a column without missing cells. *)
Lemma rolling_mean_present n (xs : list (option Z)) i :
  n ≠ 0%nat → Forall is_Some xs → (i < length xs)%nat →
  rolling_mean n xs !! i
  = Some (if decide (n ≤ S i)%nat
          then Some (Qmake (total (drop (S i - n) (take (S i) xs)))
                           (Pos.of_nat n))
          else None).
Proof.
  intros Hn Hall Hi. rewrite lookup_rolling_mean by done. f_equal.
  unfold window_mean. rewrite length_window by done.
  pose proof (window_all_present n xs i Hall).
  destruct (decide (n ≤ S i)%nat).
  - rewrite decide_True; [done|]. split; [lia|done].
  - rewrite decide_False; [done|]. intros [? _]. lia.
Qed.

(** X7: [simple_moving_average] keeps the length of the column, and on
    a column without missing cells its rows are blank exactly on the
    first [length - 1] rows. *)
Theorem simple_moving_average_rows (df : list (option Z)) n :
  length (simple_moving_average df n) = length df
  ∧ (n ≠ 0%nat → Forall is_Some df →
     ∀ i, (i < length df)%nat →
          ∃ q, simple_moving_average df n !! i = Some q
               ∧ (is_Some q ↔ (n ≤ S i)%nat)).
Proof.
  split; [apply length_imap|].
  intros Hn Hall i Hi. unfold simple_moving_average.
  rewrite rolling_mean_present by done. eexists. split; [done|].
  destruct (decide (n ≤ S i)%nat); [by eauto|].
  split; [by intros [? ?]|done].
Qed.

Lemma total_replicate n v : total (replicate n (Some v)) = Z.of_nat n * v.
Proof. induction n as [|n IH]; [done|]. simpl replicate. simpl total. lia. Qed.

(** X8: the moving average of a constant column is that constant on
    every row where it is defined, for constants whose window sum is an
    integer a [float64] holds exactly (at most 2^53 in size): there the
    float the code computes is the rational of the model. *)
Theorem simple_moving_average_constant n m v i :
  n ≠ 0%nat → (n ≤ S i)%nat → (i < m)%nat →
  Z.abs (Z.of_nat n * v) ≤ 2 ^ 53 →
  ∃ q, simple_moving_average (replicate m (Some v)) n !! i = Some (Some q)
       ∧ Qeq q (inject_Z v).
Proof.
  intros Hn Hni Him _. unfold simple_moving_average.
  rewrite rolling_mean_present; [|done|by apply Forall_replicate
                                   |by rewrite length_replicate].
  rewrite decide_True by done. eexists. split; [done|].
  rewrite take_replicate, drop_replicate, total_replicate.
  replace (S i `min` m - (S i - n))%nat with n by lia.
  assert (Z.pos (Pos.of_nat n) = Z.of_nat n) as Hpos
    by (by rewrite <- positive_nat_Z, Nat2Pos.id).
  unfold Qeq, inject_Z. cbn [Qnum Qden]. rewrite Hpos. lia.
Qed.

End SeriesFacts.

(** ** More on the query *)

Section QueryMore.

Context {Coord : Type} `{EqDecision Coord}.
Variable fsum : list Coord → Coord.
Variable strftime : Date → string.

Abbreviation Table := (Frame (@UnifiedRecord Coord)).
Abbreviation SeriesRow := (@SeriesRow Coord).

Lemma new_columns_present (d : Table) country state :
  Forall (λ row : SeriesRow, is_Some (NewConfirmed row) ∧ is_Some (NewDeaths row))
         (filter_frame fsum strftime d country state).*2.
Proof.
  apply Forall_fmap, Forall_forall. intros row Hrow.
  unfold filter_frame in Hrow. cbv zeta in Hrow.
  apply elem_of_zip_with in Hrow as (x & sma & -> & Hx & _). simpl.
  apply elem_of_join in Hx as (a & b & _ & Hb & _ & ->). simpl.
  by apply elem_of_new_cases in Hb.
Qed.

Lemma sma_columns (d : Table) country state :
  let out := (filter_frame fsum strftime d country state).*2 in
  NewConfirmedSMA7 <$> out = rolling_mean 7 (NewConfirmed <$> out)
  ∧ NewDeathsSMA7 <$> out = rolling_mean 7 (NewDeaths <$> out).
Proof.
  intros out. subst out. rewrite <- !list_fmap_compose.
  rewrite (filter_frame_column fsum strftime (NewConfirmed ∘ id) (λ x, x.2.1))
    by done.
  rewrite (filter_frame_column fsum strftime (NewDeaths ∘ id) (λ x, x.2.2))
    by done.
  unfold filter_frame, simple_moving_average. cbv zeta.
  set (J := join _ _).
  assert (length (rolling_mean 7 ((λ x : nat * (Selected * (option Z * option Z)),
                                     x.2.2.2) <$> J)) = length J) as HD
    by (by rewrite length_rolling_mean, length_fmap).
  assert (length (rolling_mean 7 ((λ x : nat * (Selected * (option Z * option Z)),
                                     x.2.2.1) <$> J)) = length J) as HC
    by (by rewrite length_rolling_mean, length_fmap).
  split.
  - etrans; [apply (fmap_zip_with_right _ _ snd);
               first [done|rewrite length_zip; lia]|].
    by rewrite snd_zip by lia.
  - etrans; [apply (fmap_zip_with_right _ _ fst);
               first [done|rewrite length_zip; lia]|].
    by rewrite fst_zip by lia.
Qed.

(** X9: in every frame [filtered_data] returns, the two SMA columns are
    the 7-row moving averages of the two new columns of that frame, and
    they are blank on the first six rows and on no other row. *)
Theorem sma_blank_on_first_six_rows (d : Table) country state :
  let out := (filter_frame fsum strftime d country state).*2 in
  NewConfirmedSMA7 <$> out = simple_moving_average (NewConfirmed <$> out) 7
  ∧ NewDeathsSMA7 <$> out = simple_moving_average (NewDeaths <$> out) 7
  ∧ (∀ i row, out !! i = Some row →
       (is_Some (NewConfirmedSMA7 row) ↔ (6 ≤ i)%nat)
       ∧ (is_Some (NewDeathsSMA7 row) ↔ (6 ≤ i)%nat)).
Proof.
  intros out. destruct (sma_columns d country state) as [HC HD].
  fold out in HC, HD. split; [done|]. split; [done|].
  intros i row Hrow.
  pose proof (new_columns_present d country state) as Hall. fold out in Hall.
  assert (∀ (col : SeriesRow → option Z) (sma : SeriesRow → option Q),
            sma <$> out = rolling_mean 7 (col <$> out) →
            Forall is_Some (col <$> out) →
            is_Some (sma row) ↔ (6 ≤ i)%nat) as Hcol.
  { intros col sma Heq Hpres.
    assert ((sma <$> out) !! i = Some (sma row)) as Hi
      by (by rewrite list_lookup_fmap, Hrow).
    rewrite Heq, rolling_mean_present in Hi;
      [|done|done|rewrite length_fmap; by eapply lookup_lt_Some].
    injection Hi as <-. destruct (decide (7 ≤ S i)%nat).
    - split; [lia|by eauto].
    - split; [by intros [? ?]|lia]. }
  split.
  - apply (Hcol _ _ HC), Forall_fmap.
    eapply Forall_impl; [exact Hall|by intros ? [? ?]].
  - apply (Hcol _ _ HD), Forall_fmap.
    eapply Forall_impl; [exact Hall|by intros ? [? ?]].
Qed.

(** X10: a query that matches no row raises nothing and returns the
    empty frame: a country without rows in the table, or an explicit
    region that no row of the country carries. *)
Theorem filter_frame_no_match (d : Table) country state :
  (∀ ir, ir ∈ d → Country ir.2 = country →
         state ≠ sentinel ∧ Province_State ir.2 ≠ Some state) →
  filter_frame fsum strftime d country state = [].
Proof.
  intros Hno.
  assert (selection fsum d country state = []) as Hsel.
  { unfold selection, select_country, Frame.
    destruct (decide (state = sentinel)).
    - rewrite (filter_none (λ ir : nat * UnifiedRecord, Country ir.2 = country));
        [done|].
      intros ir Hir Hc. by destruct (Hno ir Hir Hc).
    - unfold select_state, Frame.
      rewrite (filter_none (λ ir : nat * UnifiedRecord,
                              Province_State ir.2 = Some state)); [done|].
      intros ir [Hc Hir]%list_elem_of_filter Hp.
      by destruct (Hno ir Hir Hc). }
  unfold filter_frame. by rewrite Hsel.
Qed.

End QueryMore.

(** ** More on the reshape and the US aggregation *)

Section LoadMore.

Context {Coord : Type} `{EqDecision Coord}.
Variable median : list Coord → Coord.

Abbreviation WideRow := (@WideRow Coord).
Abbreviation MetricRow := (@MetricRow Coord).

Lemma lookup_melt_from j0 dates (rows : list WideRow) j i d w :
  dates !! j = Some d → rows !! i = Some w →
  melt_from j0 dates rows !! (j * length rows + i)%nat
  = Some (melt_cell (j0 + j) d w).
Proof.
  revert j0 j. induction dates as [|d0 ds IH]; intros j0 j Hd Hw; [done|].
  simpl. destruct j as [|j].
  - injection Hd as ->. rewrite lookup_app_l.
    2:{ rewrite length_fmap. simpl. by eapply lookup_lt_Some. }
    simpl. by rewrite list_lookup_fmap, Hw, Nat.add_0_r.
  - rewrite lookup_app_r by (rewrite length_fmap; lia).
    rewrite length_fmap.
    replace (S j * length rows + i - length rows)%nat
      with (j * length rows + i)%nat by lia.
    rewrite (IH (S j0) j) by done. do 2 f_equal. lia.
Qed.

(** X11: the long table comes column by column.  The row made of source
    row [i] and date column [j] stands at position [j * R + i] of the
    result of [melt] of a table of [R] rows; it carries the identifying
    columns of the source row, the date of the column and the cell, which
    is missing when the source row is too short to have it. *)
Theorem melt_position dates (rows : list WideRow) j i d w :
  dates !! j = Some d → rows !! i = Some w →
  melt dates rows !! (j * length rows + i)%nat
  = Some {| mCountry := wCountry w; mProvince := wProvince w;
            mLat := wLat w; mLong := wLong w; mdate := d;
            mvalue := default None (wCells w !! j) |}.
Proof. intros Hd Hw. unfold melt. by rewrite (lookup_melt_from 0 _ _ j i d w). Qed.

(** The county rows of a state, among the rows that have a state. *)
Lemma with_province_group (data : list MetricRow) c p d :
  snd <$> filter (λ pr : string * MetricRow,
                    (mCountry pr.2, pr.1, mdate pr.2) = (c, p, d))
                 (with_province data)
  = filter (λ r : MetricRow,
              mCountry r = c ∧ mProvince r = Some p ∧ mdate r = d) data.
Proof.
  unfold with_province. induction data as [|r data IH]; [done|].
  rewrite (filter_cons (λ r : MetricRow, _ ∧ _ ∧ _)). cbn [omap list_omap].
  destruct (mProvince r) as [q|] eqn:Hq; cbn [fmap option_fmap option_map].
  - rewrite (filter_cons (λ pr : string * MetricRow, _ = _)). cbn [fst snd].
    destruct (decide ((mCountry r, q, mdate r) = (c, p, d))) as [Heq|Hne].
    + injection Heq as <- <- <-. rewrite decide_True by done.
      rewrite fmap_cons. cbn [snd]. by rewrite IH.
    + rewrite decide_False; [done|]. intros (<- & [= <-] & <-). done.
  - rewrite decide_False; [done|]. by intros (_ & ? & _).
Qed.

Lemma us_key_elem dates (rows : list WideRow) c p d :
  (c, p, d) ∈ (λ pr : string * MetricRow, (mCountry pr.2, pr.1, mdate pr.2))
              <$> with_province (melt dates rows)
  ↔ (∃ w, w ∈ rows ∧ wCountry w = c ∧ wProvince w = Some p) ∧ d ∈ dates.
Proof.
  unfold with_province, melt. rewrite list_elem_of_fmap. split.
  - intros ([q r] & [= -> -> ->] & Hr). simpl in *.
    apply list_elem_of_omap in Hr as (r' & Hr' & Hq).
    destruct (mProvince r') as [q'|] eqn:Hp; [|done]. injection Hq as <- <-.
    apply elem_of_melt_from in Hr' as (i & d' & w & Hi & Hw & ->).
    simpl in *. split; [by exists w|]. by eapply list_elem_of_lookup_2.
  - intros [(w & Hw & <- & Hp) Hd].
    apply list_elem_of_lookup_1 in Hd as [i Hi].
    exists (p, melt_cell i d w). split; [done|].
    apply list_elem_of_omap. exists (melt_cell i d w). split.
    + apply elem_of_melt_from. by exists i, d, w.
    + simpl. by rewrite Hp.
Qed.

Lemma aggregate_us_rows (data : list MetricRow) (r : MetricRow) :
  r ∈ aggregate_us median data →
  ∃ c p d, (c, p, d) ∈ (λ pr : string * MetricRow,
                          (mCountry pr.2, pr.1, mdate pr.2))
                       <$> with_province data
           ∧ r = agg_row median c p d
                   (filter (λ r : MetricRow,
                              mCountry r = c ∧ mProvince r = Some p
                              ∧ mdate r = d) data).
Proof.
  unfold aggregate_us. intros (kg & -> & Hkg)%list_elem_of_fmap.
  apply elem_of_groupby in Hkg as [Hk Hg].
  destruct kg as [[[c p] d] g]. simpl in *. exists c, p, d.
  split; [done|]. by rewrite Hg, with_province_group.
Qed.

(** X12: [load_data_us] sums the counties of a state.  For a state that
    has a row in the file and a date of the file, its table has exactly
    one row, carrying the 64-bit sum of the cells and the medians of the
    coordinates of the state's rows of that date; and every row of the
    table has a state: source rows without one are left out. *)
Theorem us_frame_per_state dates (rows : list WideRow) c p d :
  (∃ w, w ∈ rows ∧ wCountry w = c ∧ wProvince w = Some p) → d ∈ dates →
  let counties :=
    filter (λ r : MetricRow,
              mCountry r = c ∧ mProvince r = Some p ∧ mdate r = d)
           (melt dates rows) in
  filter (λ r : MetricRow,
            mCountry r = c ∧ mProvince r = Some p ∧ mdate r = d)
         (us_frame median dates rows)
  = [ {| mCountry := c; mProvince := Some p;
         mLat := median (mLat <$> counties);
         mLong := median (mLong <$> counties);
         mdate := d;
         mvalue := Some (Int64.sum (mvalue <$> counties)) |} ]
  ∧ Forall (λ r : MetricRow, is_Some (mProvince r))
           (us_frame median dates rows).
Proof.
  intros Hw Hd counties. split.
  - unfold us_frame, aggregate_us. rewrite filter_fmap.
    rewrite (list_filter_iff _ (λ kg : string * string * Date
                                       * list (string * MetricRow),
                                  kg.1 = (c, p, d))).
    2:{ intros [[[c' p'] d'] g]. simpl.
        split; [by intros (-> & [= ->] & ->)|by intros [= -> -> ->]]. }
    pose proof (filter_groupby_key key3_le
                  (λ pr : string * MetricRow, (mCountry pr.2, pr.1, mdate pr.2))
                  id fst (with_province (melt dates rows)) (c, p, d)) as Hg.
    rewrite list_fmap_id in Hg. rewrite Hg; [|done|by apply us_key_elem].
    simpl. unfold agg_row. simpl. by rewrite with_province_group.
  - apply Forall_forall. intros r Hr.
    apply aggregate_us_rows in Hr as (c' & p' & d' & _ & ->). simpl. eauto.
Qed.

(** No two rows of the US table have the same state and date. *)
Lemma us_frame_keys_distinct dates (rows : list WideRow) :
  NoDup ((λ r : MetricRow, (mCountry r, mProvince r, mdate r))
         <$> us_frame median dates rows).
Proof.
  unfold us_frame, aggregate_us. rewrite <- list_fmap_compose.
  set (G := groupby _ _ _).
  assert (NoDup G.*1) as Hnd by apply NoDup_groupby_keys.
  erewrite (list_fmap_ext _ ((λ k : string * string * Date,
                                (k.1.1, Some k.1.2, k.2)) ∘ fst)).
  2:{ by intros ? [[[? ?] ?] ?] _. }
  rewrite list_fmap_compose. apply NoDup_fmap_2; [|done].
  by intros [[? ?] ?] [[? ?] ?] [= -> -> ->].
Qed.

End LoadMore.

(** ** More on the merge and on [refresh_data] *)

Section MergeMore.

Context {Coord : Type} `{EqDecision Coord}.
Variable median : list Coord → Coord.

Abbreviation MetricRow := (@MetricRow Coord).
Abbreviation World := (@World Coord).

Lemma merge_cons (a : MetricRow) (A B : list MetricRow) :
  merge (a :: A) B
  = (merge_row a <$> filter (λ b : MetricRow, merge_key b = merge_key a) B)
    ++ merge A B.
Proof. unfold merge. by rewrite bind_cons. Qed.

(** When no entity and date repeats on the left and no key repeats on the
    right, no entity and date repeats in the merged table. *)
Lemma merge_keys_distinct (A B : list MetricRow) :
  NoDup ((λ r : MetricRow, (mCountry r, mProvince r, mdate r)) <$> A) →
  NoDup (merge_key <$> B) →
  NoDup ((λ u : UnifiedRecord, (Country u, Province_State u, date u))
         <$> merge A B).
Proof.
  intros HA HB. induction A as [|a A IH]; [constructor|].
  rewrite fmap_cons in HA. apply NoDup_cons in HA as [Ha HA].
  rewrite merge_cons, fmap_app. apply NoDup_app. split; [|split].
  - pose proof (matches_NoDup (merge_key a) B HB) as Hm. unfold matches in Hm.
    destruct (filter _ B) as [|b [|b' bs]]; simpl.
    + constructor.
    + apply NoDup_singleton.
    + destruct (decide _) in Hm; simpl in Hm; lia.
  - intros k (u & -> & Hu)%list_elem_of_fmap (u' & Hk & Hu')%list_elem_of_fmap.
    apply list_elem_of_fmap in Hu as (b & -> & _).
    apply elem_of_merge in Hu' as (a' & b' & Ha' & _ & _ & ->).
    simpl in Hk. apply Ha. rewrite Hk. apply list_elem_of_fmap. by exists a'.
  - by apply IH.
Qed.

(** X13: the US part of the unified table has at most one row for a
    state and a date, whatever the two US files hold, and is no longer
    than the shorter of the two aggregated tables it is merged from. *)
Theorem us_part_one_row_per_state_and_date dates1 rows1 dates2 rows2 :
  let confirmed := us_frame median dates1 rows1 in
  let deaths := us_frame median dates2 rows2 in
  NoDup ((λ u : UnifiedRecord, (Country u, Province_State u, date u))
         <$> merge confirmed deaths)
  ∧ (length (merge confirmed deaths) ≤ length confirmed `min` length deaths)%nat.
Proof.
  intros confirmed deaths.
  assert (∀ dates rows, NoDup (merge_key <$> us_frame median dates rows)) as Hk.
  { intros dates rows.
    apply (NoDup_fmap_1 (λ k : string * option string * Coord * Coord * Date,
                           (k.1.1.1.1, k.1.1.1.2, k.2))).
    rewrite <- list_fmap_compose. apply us_frame_keys_distinct. }
  split.
  - apply merge_keys_distinct; [apply us_frame_keys_distinct|apply Hk].
  - pose proof (length_merge_le_l confirmed deaths (Hk _ _)).
    pose proof (length_merge_le_l deaths confirmed (Hk _ _)).
    rewrite (length_merge_comm deaths confirmed) in *. lia.
Qed.

(** X14: when [refresh_data] returns, all four resources were there in
    their layouts (the US ones with [Combined_Key], with or without
    [Population]), and the table is the rows of the merged global tables
    followed by the rows of the merged US tables, each part labelled
    from 0: [concat] does not renumber the rows.  The order of the rows
    within a part is left open. *)
Theorem refresh_data_table (w : World) t w' :
  run (refresh_data median) w = (inr t, w') →
  ∃ cg dg cu du pc pd,
    remote w (baseURL +:+ "time_series_covid19_confirmed_global.csv") = Some cg
    ∧ remote w (baseURL +:+ "time_series_covid19_deaths_global.csv") = Some dg
    ∧ remote w (baseURL +:+ "time_series_covid19_confirmed_US.csv") = Some cu
    ∧ remote w (baseURL +:+ "time_series_covid19_deaths_US.csv") = Some du
    ∧ csv_schema cg = GlobalSchema ∧ csv_schema dg = GlobalSchema
    ∧ csv_schema cu = UsSchema true pc ∧ csv_schema du = UsSchema true pd
    ∧ let part_global :=
        merge (global_frame median (csv_dates cg) (csv_rows cg))
              (global_frame median (csv_dates dg) (csv_rows dg)) in
      let part_us :=
        merge (us_frame median (csv_dates cu) (csv_rows cu))
              (us_frame median (csv_dates du) (csv_rows du)) in
      ∃ rows_global rows_us,
        t.*2 = rows_global ++ rows_us
        ∧ rows_global ≡ₚ part_global
        ∧ rows_us ≡ₚ part_us
        ∧ t.*1 = seq 0 (length part_global) ++ seq 0 (length part_us).
Proof.
  unfold refresh_data.
  rewrite run_bind, run_load_data_global.
  destruct (remote w _) as [cg|] eqn:R1; [|done].
  destruct (csv_schema cg) eqn:S1; [|done].
  rewrite run_bind, run_load_data_global. cbn [remote log].
  destruct (remote w _) as [dg|] eqn:R2 at 1; [|done].
  destruct (csv_schema dg) eqn:S2; [|done].
  rewrite run_bind, run_load_data_us. cbn [remote log].
  destruct (remote w _) as [cu|] eqn:R3 at 1; [|done].
  destruct (csv_schema cu) as [|[] pc] eqn:S3; [done| |done].
  rewrite run_bind, run_load_data_us. cbn [remote log].
  destruct (remote w _) as [du|] eqn:R4 at 1; [|done].
  destruct (csv_schema du) as [|[] pd] eqn:S4; [done| |done].
  cbn. intros [= <- _]. exists cg, dg, cu, du, pc, pd.
  repeat (split; [done|]). cbv zeta. eexists _, _.
  rewrite !fmap_app, !snd_reset_index, !fst_reset_index. done.
Qed.

End MergeMore.

(** ** The figures: [barchart] and [add_trend_lines] *)

Section ChartFacts.

Context {Coord : Type}.
Variable strftime : Date → string.

Abbreviation SeriesRow := (@SeriesRow Coord).

Lemma length_append (s t : string) :
  String.length (s +:+ t) = (String.length s + String.length t)%nat.
Proof. induction s as [|a s IH]; [done|]. simpl. by rewrite IH. Qed.

(** Two ways of cutting a string into a head and a tail of the same
    length give the same head and the same tail. *)
Lemma append_same_tail (s1 s2 t1 t2 : string) :
  s1 +:+ t1 = s2 +:+ t2 → String.length t1 = String.length t2 →
  s1 = s2 ∧ t1 = t2.
Proof.
  revert s2. induction s1 as [|a s1 IH]; intros [|b s2] Heq Hlen; simpl in *.
  - done.
  - apply (f_equal String.length) in Heq.
    rewrite !length_append in Heq. simpl in Heq. lia.
  - apply (f_equal String.length) in Heq.
    rewrite !length_append in Heq. simpl in Heq. lia.
  - injection Heq as -> Heq. destruct (IH s2 Heq Hlen) as [-> ->]. done.
Qed.

Local Ltac cut_name H head tail :=
  apply (append_same_tail _ head _ tail) in H; [|reflexivity];
  destruct H as [H ?]; try discriminate.

(** [prefix + metric] names a column, for a metric that has a colour,
    only for the prefixes [Cum] and [New]. *)
Lemma column_of_known_metric (data : Frame SeriesRow) prefix metric y :
  known_metric metric → column data (prefix +:+ metric) = inr y →
  prefix = "Cum" ∨ prefix = "New".
Proof.
  unfold column. intros [-> | ->].
  - destruct (decide _) as [H|_]; [cut_name H "Cum" "Confirmed"; by left|].
    destruct (decide _) as [H|_]; [cut_name H "" "CumDeaths"|].
    destruct (decide _) as [H|_]; [cut_name H "New" "Confirmed"; by right|].
    destruct (decide _) as [H|_]; [cut_name H "" "NewDeaths"|].
    destruct (decide _) as [H|_]; [cut_name H "NewD" "eathsSMA7"|].
    destruct (decide _) as [H|_]; [cut_name H "NewConf" "irmedSMA7"|].
    done.
  - destruct (decide _) as [H|_]; [cut_name H "CumCon" "firmed"|].
    destruct (decide _) as [H|_]; [cut_name H "Cum" "Deaths"; by left|].
    destruct (decide _) as [H|_]; [cut_name H "NewCon" "firmed"|].
    destruct (decide _) as [H|_]; [cut_name H "New" "Deaths"; by right|].
    destruct (decide _) as [H|_]; [cut_name H "NewDeat" "hsSMA7"|].
    destruct (decide _) as [H|_]; [cut_name H "NewConfirm" "edSMA7"|].
    done.
Qed.

Lemma traverse_all {A B} (f : A → Error + B) (g : A → B) (l : list A) :
  Forall (λ x, f x = inr (g x)) l → traverse f l = inr (g <$> l).
Proof.
  induction 1 as [|x l Hx _ IH]; [done|]. simpl. by rewrite Hx, IH.
Qed.

Lemma traverse_raises {A B} (f : A → Error + B) (l : list A) e0 :
  (∀ x e, f x = inl e → e = e0) →
  Exists (λ x, ∃ e, f x = inl e) l → traverse f l = inl e0.
Proof.
  intros Hf. induction 1 as [x l [e Hx]|x l _ IH]; simpl.
  - rewrite Hx. by rewrite (Hf x e Hx).
  - destruct (f x) as [e|y] eqn:Hx; [by rewrite (Hf x e Hx)|]. by rewrite IH.
Qed.

Lemma traverse_returns {A B} (f : A → Error + B) (l : list A) ys :
  traverse f l = inr ys → Forall (λ x, ∃ y, f x = inr y) l.
Proof.
  revert ys. induction l as [|x l IH]; intros ys; simpl; [by constructor|].
  destruct (f x) as [e|y] eqn:Hx; [done|].
  destruct (traverse f l) as [e|ys'] eqn:Hl; [done|].
  intros _. constructor; [by exists y|by eapply IH].
Qed.

Lemma bar_known (data : Frame SeriesRow) metric :
  known_metric metric →
  bar data "Cum" metric = inr (bar_of data false metric)
  ∧ bar data "New" metric = inr (bar_of data true metric)
  ∧ trend_line data "New" metric = inr (line_of data metric).
Proof. by intros [-> | ->]. Qed.

Lemma bar_raises (data : Frame SeriesRow) prefix metric e :
  bar data prefix metric = inl e → e = KeyError.
Proof.
  unfold bar, column, marker_color.
  repeat (destruct (decide _); try done); by intros [= <-].
Qed.

Lemma bars_and_lines (data : Frame SeriesRow) metrics :
  Forall known_metric metrics →
  traverse (bar data "Cum") metrics = inr (bar_of data false <$> metrics)
  ∧ traverse (bar data "New") metrics = inr (bar_of data true <$> metrics)
  ∧ traverse (trend_line data "New") metrics = inr (line_of data <$> metrics).
Proof.
  intros Hknown. repeat split; apply traverse_all;
    (eapply Forall_impl; [exact Hknown|]); intros m Hm; by apply bar_known.
Qed.

(** X15: for metrics that have a colour, [barchart] draws one bar
    series per metric, in the order of the metrics, over the dates of
    the frame; with the prefix [Cum] nothing else, with the prefix [New]
    followed by one 7-day trend line per metric, in the same order. *)
Theorem barchart_figure (data : Frame SeriesRow) metrics title :
  Forall known_metric metrics →
  barchart data metrics "Cum" title
  = inr {| traces := bar_of data false <$> metrics;
           yaxis_title := title;
           ticktext := dateStr <$> data.*2;
           tickvals := fdate <$> data.*2 |}
  ∧ barchart data metrics "New" title
    = inr {| traces := (bar_of data true <$> metrics)
                       ++ (line_of data <$> metrics);
             yaxis_title := title;
             ticktext := dateStr <$> data.*2;
             tickvals := fdate <$> data.*2 |}.
Proof.
  intros Hknown. destruct (bars_and_lines data metrics Hknown) as (Hc & Hn & Hl).
  unfold barchart, add_trend_lines. by rewrite Hc, Hn, Hl.
Qed.

(** X16: [barchart] raises nothing but [KeyError], and raises it exactly
    when a metric has no colour, or when there is a metric to draw and
    the prefix is neither [Cum] nor [New]: with its default prefix, the
    empty string, it draws only the empty list of metrics. *)
Theorem barchart_key_error (data : Frame SeriesRow) metrics prefix title :
  (∀ e, barchart data metrics prefix title = inl e → e = KeyError)
  ∧ ((∃ e, barchart data metrics prefix title = inl e) ↔
     ¬ Forall known_metric metrics
     ∨ (metrics ≠ [] ∧ prefix ≠ "Cum" ∧ prefix ≠ "New")).
Proof.
  assert (∀ m e, trend_line data prefix m = inl e → e = KeyError) as Hline.
  { intros m e. unfold trend_line, column.
    repeat (destruct (decide _); try done); by intros [= <-]. }
  assert (∀ e, barchart data metrics prefix title = inl e → e = KeyError)
    as Hkey.
  { intros e. unfold barchart, add_trend_lines.
    destruct (traverse (bar data prefix) metrics) as [e1|bars] eqn:Hbars.
    - intros [= <-]. clear -Hbars. revert Hbars.
      induction metrics as [|m ms IH]; simpl; [done|].
      destruct (bar data prefix m) as [e2|y] eqn:Hm.
      + intros [= <-]. by eapply bar_raises.
      + destruct (traverse (bar data prefix) ms); [|done].
        intros [= <-]. by apply IH.
    - destruct (decide (prefix = "New")); [|done].
      destruct (traverse (trend_line data prefix) metrics) as [e1|ls] eqn:Hls;
        [|done].
      intros [= <-]. clear -Hls Hline. revert Hls.
      induction metrics as [|m ms IH]; simpl; [done|].
      destruct (trend_line data prefix m) as [e2|y] eqn:Hm.
      + intros [= <-]. by eapply Hline.
      + destruct (traverse (trend_line data prefix) ms); [|done].
        intros [= <-]. by apply IH. }
  split; [done|]. split.
  - intros [e He].
    destruct (decide (Forall known_metric metrics)) as [Hknown|]; [|by left].
    right. destruct metrics as [|m ms].
    { exfalso. unfold barchart, add_trend_lines in He. simpl in He.
      by destruct (decide (prefix = "New")). }
    split; [done|].
    destruct (bars_and_lines data (m :: ms) Hknown) as (Hbc & Hbn & Hl).
    unfold barchart, add_trend_lines in He.
    destruct (decide (prefix = "Cum")) as [->|Hc]; [by rewrite Hbc in He|].
    destruct (decide (prefix = "New")) as [->|Hn]; [|done].
    by rewrite Hbn, Hl in He.
  - intros [Hunknown|(Hne & Hc & Hn)].
    + exists KeyError. unfold barchart.
      rewrite (traverse_raises (bar data prefix) metrics KeyError); [done| |].
      * intros m e. apply bar_raises.
      * apply not_Forall_Exists in Hunknown; [|apply _].
        eapply Exists_impl; [exact Hunknown|]. intros m Hm. simpl in Hm.
        unfold bar. destruct (column data (prefix +:+ m)); [by eauto|].
        unfold marker_color, known_metric in *.
        destruct (decide (m = "Deaths")); [tauto|].
        destruct (decide (m = "Confirmed")); [tauto|]. by eauto.
    + destruct (decide (Forall known_metric metrics)) as [Hknown|Hunknown].
      * exists KeyError. unfold barchart.
        rewrite (traverse_raises (bar data prefix) metrics KeyError); [done| |].
        -- intros m e. apply bar_raises.
        -- destruct metrics as [|m ms]; [done|]. apply Exists_cons_hd.
           apply Forall_cons in Hknown as [Hm _]. unfold bar.
           destruct (column data (prefix +:+ m)) as [e|y] eqn:Hcol;
             [by eauto|].
           by destruct (column_of_known_metric data prefix m y Hm Hcol).
      * exists KeyError. unfold barchart.
        rewrite (traverse_raises (bar data prefix) metrics KeyError); [done| |].
        -- intros m e. apply bar_raises.
        -- apply not_Forall_Exists in Hunknown; [|apply _].
           eapply Exists_impl; [exact Hunknown|]. intros m Hm. simpl in Hm.
           unfold bar. destruct (column data (prefix +:+ m)); [by eauto|].
           unfold marker_color, known_metric in *.
           destruct (decide (m = "Deaths")); [tauto|].
           destruct (decide (m = "Confirmed")); [tauto|]. by eauto.
Qed.

End ChartFacts.

(** ** Further scenarios *)

Section MoreScenarios.

Import Examples.

Local Ltac compute_fact := apply (bool_decide_unpack _); vm_compute; exact I.

Lemma states_of_type_error_witness :
  states_of missingland "Voidland" = inl TypeError.
Proof.
  apply (proj1 (states_of_type_error missingland "Voidland")).
  exists (1%nat, urow "Voidland" None 18262 (Some 2) (Some 0)).
  split; [compute_fact|]. split; reflexivity.
Defined.

Lemma states_of_sorted_options_witness :
  StronglySorted string_le [sentinel; sentinel; "Beijing"; "Hubei"]
  ∧ string_le sentinel "Hubei".
Proof.
  destruct (states_of_sorted_options unified "China"
              [(sentinel, sentinel); (sentinel, sentinel);
               ("Beijing", "Beijing"); ("Hubei", "Hubei")] sentinel)
    as (_ & Hsorted & _ & _ & Hleast); [reflexivity|].
  split; [exact Hsorted|]. apply Hleast. compute_fact.
Defined.


Lemma countries_sorted_distinct_witness :
  ∃ cs, (run (countries zmedian) fresh_world).1 = inr cs
        ∧ StronglySorted string_le cs ∧ NoDup cs.
Proof.
  eexists. split; [reflexivity|].
  destruct (countries_sorted_distinct zmedian fresh_world _ _ eq_refl)
    as (d & _ & Hs & Hn & _).
  split; [exact Hs|exact Hn].
Defined.

Lemma new_values_telescope_witness :
  Int64.total (drop 1 (take 8 (Int64.fillna 0
     (Int64.diff (Some <$> [1; 1; 2; 4; 7; 11; 16; 22])))))
  = 22 - 1.
Proof.
  apply (proj2 (new_values_telescope [1; 1; 2; 4; 7; 11; 16; 22] 0 7 1 22
                  ltac:(lia) eq_refl eq_refl)).
  compute_fact.
Defined.

Lemma simple_moving_average_rows_witness :
  ∃ q, simple_moving_average (Some <$> [0; 0; 1; 2; 3; 4; 5; 6]) 7 !! 5%nat
       = Some q
       ∧ (is_Some q ↔ (7 ≤ 6)%nat).
Proof.
  apply (proj2 (simple_moving_average_rows
                  (Some <$> [0; 0; 1; 2; 3; 4; 5; 6]) 7)
           ltac:(discriminate) ltac:(compute_fact) 5%nat ltac:(simpl; lia)).
Defined.

Lemma simple_moving_average_constant_witness :
  ∃ q, simple_moving_average (replicate 10 (Some 5)) 7 !! 8%nat = Some (Some q)
       ∧ Qeq q (inject_Z 5).
Proof.
  apply (simple_moving_average_constant 7 10 5 8);
    [discriminate|lia|lia|vm_compute; discriminate].
Defined.

Lemma sma_blank_on_first_six_rows_witness :
  ∃ row, (filter_frame zsum day_label testland "Testland" sentinel).*2 !! 6%nat
         = Some row
         ∧ is_Some (NewConfirmedSMA7 row).
Proof.
  eexists. split; [reflexivity|].
  destruct (sma_blank_on_first_six_rows zsum day_label testland "Testland"
              sentinel) as (_ & _ & Hblank).
  apply (proj1 (Hblank 6%nat _ eq_refl)). lia.
Defined.

Lemma filter_frame_no_match_witness :
  filter_frame zsum day_label testland "Nowhere" sentinel = [].
Proof.
  apply filter_frame_no_match. intros ir Hir Hc. exfalso.
  revert Hc. apply (bool_decide_unpack _).
  revert ir Hir. apply Forall_forall. compute_fact.
Defined.

Lemma melt_position_witness :
  melt days (csv_rows confirmed_global) !! 5%nat
  = Some {| mCountry := "China"; mProvince := Some "Beijing";
            mLat := 40; mLong := 116; mdate := 18263; mvalue := Some 2 |}.
Proof.
  apply (melt_position days (csv_rows confirmed_global) 1 1 18263
           (wrow "China" (Some "Beijing") 40 116 [1; 2])); reflexivity.
Defined.

Lemma us_frame_per_state_witness :
  filter (λ r, mCountry r = "US" ∧ mProvince r = Some "Alabama"
               ∧ mdate r = 18263)
         (us_frame zmedian days (csv_rows confirmed_us))
  = [ {| mCountry := "US"; mProvince := Some "Alabama";
         mLat := 32; mLong := -87; mdate := 18263; mvalue := Some 5 |} ].
Proof.
  apply (proj1 (us_frame_per_state zmedian days (csv_rows confirmed_us)
                  "US" "Alabama" 18263
                  ltac:(exists (wrow "US" (Some "Alabama") 32 (-86) [1; 2]);
                        split; [left|split; reflexivity])
                  ltac:(compute_fact))).
Defined.

Lemma refresh_data_table_witness :
  ∃ t w', run (refresh_data zmedian) fresh_world = (inr t, w')
          ∧ t.*1 = seq 0 10 ++ seq 0 4.
Proof.
  eexists _, _. split; [reflexivity|].
  destruct (refresh_data_table zmedian fresh_world _ _ eq_refl)
    as (cg & dg & cu & du & pc & pd & [= <-] & [= <-] & [= <-] & [= <-]
        & _ & _ & _ & _ & rows_global & rows_us & _ & _ & _ & Hlabels).
  exact Hlabels.
Defined.

Lemma barchart_figure_witness :
  ∃ fig, barchart (filter_frame zsum day_label testland "Testland" sentinel)
                  ["Confirmed"; "Deaths"] "New" "New Cases per Day" = inr fig
         ∧ kind <$> traces fig = [Bar; Bar; Scatter; Scatter].
Proof.
  eexists. split.
  - apply (proj2 (barchart_figure
                    (filter_frame zsum day_label testland "Testland" sentinel)
                    ["Confirmed"; "Deaths"] "New Cases per Day"
                    ltac:(apply Forall_cons; split; [by left|];
                          apply Forall_cons; split; [by right|];
                          apply Forall_nil_2))).
  - reflexivity.
Defined.

Lemma barchart_key_error_witness :
  ∃ e, barchart testland_frame ["Confirmed"] "" "" = inl e.
Proof.
  apply (proj2 (proj2 (barchart_key_error testland_frame ["Confirmed"] "" ""))).
  right. repeat split; discriminate.
Defined.

Lemma global_frame_no_rows_witness :
  filter (λ r, mCountry r = "Atlantis" ∧ mdate r = 18262)
         (global_frame zmedian days (csv_rows confirmed_global)) = [].
Proof.
  apply global_frame_no_rows. intros [Hc _]. revert Hc.
  apply (bool_decide_unpack _). compute_fact.
Defined.

(** On the four files: both figures of [update_plots] for China and the
    aggregate sentinel, after a refresh, with the doubled totals. *)
Example update_plots_china :
  ∃ new cum w',
    run (update_plots zmedian zsum day_label "China" sentinel ["Confirmed"] 0)
        cached_world
    = (inr (new, cum), w')
    ∧ ys <$> traces cum = [Ints [Some 22; Some 44]]
    ∧ kind <$> traces new = [Bar; Scatter]
    ∧ fetches (trace w') = resources.
Proof. eexists _, _, _. repeat split; vm_compute; reflexivity. Qed.

End MoreScenarios.

(** ** The labels of a snapshot of two parts *)

Section SnapshotLabels.

(** In a table of two parts, each labelled from 0, the rows that a
    selection takes from one part only have distinct labels. *)
Lemma two_part_labels_distinct {A} (P : nat * A → Prop)
    `{∀ x, Decision (P x)} (G U : list A) :
  (∀ x, x ∈ reset_index G → ¬ P x) ∨ (∀ x, x ∈ reset_index U → ¬ P x) →
  NoDup (filter P (reset_index G ++ reset_index U)).*1.
Proof.
  intros Hone. rewrite filter_app.
  destruct Hone as [Hnone|Hnone]; rewrite (filter_none P _ Hnone).
  - rewrite app_nil_l. apply NoDup_fmap_filter, NoDup_reset_index.
  - rewrite app_nil_r. apply NoDup_fmap_filter, NoDup_reset_index.
Qed.

Import Examples.

(** On the table the four files make, the labels repeat across the two
    parts, and the labels of the rows of a province do not. *)
Example labels_of_a_province :
  ¬ NoDup unified.*1
  ∧ NoDup (filter (λ ir, Country ir.2 = "China"
                         ∧ Province_State ir.2 = Some "Hubei") unified).*1.
Proof.
  split; [|apply (bool_decide_unpack _); vm_compute; exact I].
  intros Hnd. revert Hnd. apply (bool_decide_unpack _). vm_compute. exact I.
Qed.

End SnapshotLabels.

(** ** The errors of [update_states] *)

Section DropdownErrors.

Context {Coord : Type} `{EqDecision Coord}.
Variable median : list Coord → Coord.

Abbreviation World := (@World Coord).

Lemma run_update_states (w : World) country :
  run (update_states median country) w =
    match run (all_data median) w with
    | (inr d, w') =>
        (match states_of d country with
         | inr r => inr r
         | inl e => inl e
         end, w')
    | (inl e, w') => (inl e, w')
    end.
Proof.
  unfold update_states. rewrite run_bind.
  destruct (run _ w) as [[?|d] ?]; [done|]. by destruct (states_of d country).
Qed.

(** X1: [update_states] passes on the error of a load that raises; once
    the table is loaded it raises [TypeError], and no other error,
    exactly when a row of the selected country has no Province/State. *)
Theorem update_states_errors (w : World) country :
  match run (all_data median) w with
  | (inl e, w1) => run (update_states median country) w = (inl e, w1)
  | (inr d, w1) =>
      (run (update_states median country) w = (inl TypeError, w1) ↔
       ∃ ir, ir ∈ d ∧ Country ir.2 = country ∧ Province_State ir.2 = None)
      ∧ (∀ e w', run (update_states median country) w = (inl e, w') →
                 e = TypeError)
  end.
Proof.
  rewrite run_update_states.
  destruct (run (all_data median) w) as [[e|d] w1]; [done|].
  destruct (states_of_type_error d country) as [Hiff Honly].
  destruct (states_of d country) as [e|r] eqn:Hs.
  - pose proof (Honly e eq_refl) as ->. split.
    + split; [intros _; by apply Hiff|done].
    + by intros e w' [= <- _].
  - split; [|done]. split; [done|]. intros Hmiss. apply Hiff in Hmiss. done.
Qed.

End DropdownErrors.

Section DropdownErrorScenarios.

Import Examples.

(** With the snapshot of a country that has a row without a
    Province/State on disk, the dropdown callback raises [TypeError]. *)
Lemma update_states_errors_witness :
  (run (update_states zmedian "Voidland") void_world).1 = inl TypeError
  ∧ (run (update_states zmedian "Voidland") broken_world).1 = inl FetchError.
Proof.
  pose proof (update_states_errors zmedian void_world "Voidland") as Hvoid.
  pose proof (update_states_errors zmedian broken_world "Voidland") as Hbroken.
  split.
  - apply (f_equal fst (proj2 (proj1 Hvoid)
             ltac:(exists (1%nat, urow "Voidland" None 18262 (Some 2) (Some 0));
                   split; [apply (bool_decide_unpack _); vm_compute; exact I|];
                   split; reflexivity))).
  - exact (f_equal fst Hbroken).
Defined.

End DropdownErrorScenarios.

(** ** The write of the snapshot is in place *)

Section InPlaceFacts.

Context {Coord : Type} `{EqDecision Coord}.
Variable median : list Coord → Coord.

Abbreviation World := (@World Coord).
Abbreviation File := (@File Coord).

(** [refresh_data] is [build_table] followed by the write. *)
Lemma run_refresh_data_build (w : World) :
  run (refresh_data median) w =
    match run (build_table median) w with
    | (inl e, w') => (inl e, w')
    | (inr data, w') =>
        (inr data, {| remote := remote w'; pickle := Some data;
                      trace := trace w' ++ [EvWritePickle] |})
    end.
Proof.
  unfold refresh_data, build_table. rewrite !run_bind.
  destruct (run (load_data_global median _ "CumConfirmed") w)
    as [[e|a1] w1]; [done|].
  rewrite !run_bind.
  destruct (run (load_data_global median _ "CumDeaths") w1)
    as [[e|a2] w2]; [done|].
  rewrite !run_bind.
  destruct (run (load_data_us median _ "CumConfirmed") w2)
    as [[e|a3] w3]; [done|].
  rewrite !run_bind.
  destruct (run (load_data_us median _ "CumDeaths") w3)
    as [[e|a4] w4]; [done|].
  done.
Qed.

(** What one run of [build_table] does to the world. *)
Lemma build_table_run (w : World) r w' :
  run (build_table median) w = (r, w') →
  remote w' = remote w ∧ pickle w' = pickle w ∧
  match r with
  | inl e =>
      (e = FetchError ∨ e = KeyError) ∧
      ∃ n, (n < 4)%nat ∧ trace w' = trace w ++ (EvFetch <$> take (S n) resources)
  | inr t => trace w' = trace w ++ (EvFetch <$> resources)
  end.
Proof.
  unfold build_table.
  rewrite run_bind, run_load_data_global.
  destruct (remote w _) as [c1|] eqn:R1; cycle 1.
  { intros [= <- <-]. simpl. repeat split; [by left|].
    exists 0%nat. split; [lia|done]. }
  destruct (csv_schema c1) eqn:S1; cycle 1.
  { intros [= <- <-]. simpl. repeat split; [by right|].
    exists 0%nat. split; [lia|done]. }
  rewrite run_bind, run_load_data_global. cbn [remote log].
  destruct (remote w _) as [c2|] eqn:R2 at 1; cycle 1.
  { intros [= <- <-]. simpl. repeat split; [by left|].
    exists 1%nat. split; [lia|]. by rewrite <- app_assoc. }
  destruct (csv_schema c2) eqn:S2; cycle 1.
  { intros [= <- <-]. simpl. repeat split; [by right|].
    exists 1%nat. split; [lia|]. by rewrite <- app_assoc. }
  rewrite run_bind, run_load_data_us. cbn [remote log].
  destruct (remote w _) as [c3|] eqn:R3 at 1; cycle 1.
  { intros [= <- <-]. simpl. repeat split; [by left|].
    exists 2%nat. split; [lia|]. by rewrite <- !app_assoc. }
  destruct (csv_schema c3) as [|[] ?] eqn:S3.
  1,3: intros [= <- <-]; simpl; repeat split; [by right|];
    exists 2%nat; (split; [lia|]); by rewrite <- !app_assoc.
  rewrite run_bind, run_load_data_us. cbn [remote log].
  destruct (remote w _) as [c4|] eqn:R4 at 1; cycle 1.
  { intros [= <- <-]. simpl. repeat split; [by left|].
    exists 3%nat. split; [lia|]. by rewrite <- !app_assoc. }
  destruct (csv_schema c4) as [|[] ?] eqn:S4.
  1,3: intros [= <- <-]; simpl; repeat split; [by right|];
    exists 3%nat; (split; [lia|]); by rewrite <- !app_assoc.
  cbn. intros [= <- <-]. simpl. repeat split. by rewrite <- !app_assoc.
Qed.

(** When the dump runs to its end, the run in place does what
    [refresh_data] does, and the file is the snapshot it wrote. *)
Lemma refresh_data_in_place_agrees (w : World) (f : File) :
  refresh_data_in_place median true w f =
    (let (r, w') := run (refresh_data median) w in
     (r, {| remote := remote w'; pickle := pickle w; trace := trace w' |},
      match r with inr t => Snapshot t | inl _ => f end)).
Proof.
  unfold refresh_data_in_place. rewrite run_refresh_data_build.
  destruct (run (build_table median) w) as [[e|t] w1] eqn:Hb.
  - apply build_table_run in Hb as (_ & Hp & _). destruct w1. simpl in *.
    by rewrite Hp.
  - apply build_table_run in Hb as (_ & Hp & _). simpl. unfold log.
    by rewrite Hp.
Qed.


End InPlaceFacts.

Section InPlaceScenarios.

Import Examples.



End InPlaceScenarios.
